(** * GNK Droid league bot: run lifecycle and matchmaking

    A shallow embedding of the state-changing core of [gnk_bot.py]: the
    JSON-backed collections of active and archived runs, the daily run limit,
    the matchmaking queue, the confirm / dispute / timeout protocol of a
    reported result and the administrator commands.

    Conventions of the embedding.
    - A Python [dict] is an insertion-ordered association list with Python's
      update discipline (module [Dict]); the order matters where the program
      iterates ([sorted(player_queue.items())], the scan of [delete_run]).
    - The JSON files are the fields of one [store]; a handler that calls
      [load_json], mutates its private copy and calls [save_json] is a
      function from store to store, and a handler that raises before
      [save_json] returns the store it started from.
    - Run tables are keyed by [str(user_id)] in the program; [str] is
      injective on integers, so the keys are the integers themselves.
    - Instants are integers counting microseconds since the Unix epoch.
      The reading of the clock is an argument of each handler.
    - What a handler answers is kept as a [reply].  Every [await] on
      Discord that the program leaves outside a [try] can raise: an answer
      to the click, message or command being handled, a message posted to a
      channel, and a direct message to a player, who may have closed direct
      messages or be unknown to the bot ([bot.get_user] returns [None]).
      [discord] says what Discord does during one call.  The model follows
      such an exception wherever the handler has changed something before
      the [await] and would go on after it.  A handler whose first step is
      an answer that raises has done nothing, and the model takes a call
      from after that answer ([start_run] after [defer], [confirm] after
      "Result logged!"); where a send is the last thing a handler does, the
      [reply] is what the handler sends.  [win_claim] stands for the view
      it builds. *)

From Stdlib Require Import String ZArith List Bool Lia Permutation Sorted.
Import ListNotations.
Local Open Scope Z_scope.

(** ** Python dictionaries *)

Class EqDec (K : Type) := eq_dec : forall x y : K, {x = y} + {x <> y}.

#[export] Instance Z_EqDec : EqDec Z := Z.eq_dec.
#[export] Instance string_EqDec : EqDec string := string_dec.

Definition dict (K V : Type) := list (K * V).

Module Dict.
Section Ops.
Context {K V : Type} {HK : EqDec K}.

(** [d.get(k)] and [d[k]]; [None] stands for the absent key ([KeyError]
    when the program subscripts). *)
Fixpoint get (k : K) (d : dict K V) : option V :=
  match d with
  | [] => None
  | (k', v) :: d' => if eq_dec k k' then Some v else get k d'
  end.

(** [k in d]. *)
Definition mem (k : K) (d : dict K V) : bool :=
  match get k d with Some _ => true | None => false end.

(** [d[k] = v]: an existing key keeps its position, a new key goes last. *)
Fixpoint set (k : K) (v : V) (d : dict K V) : dict K V :=
  match d with
  | [] => [(k, v)]
  | (k', v') :: d' =>
      if eq_dec k k' then (k, v) :: d' else (k', v') :: set k v d'
  end.

(** [d.pop(k)], [d.pop(k, None)] and [del d[k]] on a present key: the entry
    goes, the order of the others stays.  (On an absent key [d.pop(k, None)]
    changes nothing, and so does this.) *)
Fixpoint pop (k : K) (d : dict K V) : dict K V :=
  match d with
  | [] => []
  | (k', v') :: d' =>
      if eq_dec k k' then pop k d' else (k', v') :: pop k d'
  end.

Definition keys (d : dict K V) : list K := map fst d.

End Ops.
End Dict.

(** ** Configuration *)

Definition MAX_RUNS_PER_DAY : nat := 2.
Definition MATCH_LIMIT : nat := 3.

(** ** Data model *)

Definition user_id_t := Z.
Definition instant := Z.

(** The ["res"] field of a recorded match: ["W"] or ["L"]. *)
Inductive result := W | L.

(** One element of [match_results]:
    [{"opp": opp, "res": res, "type": match_type}]. *)
Record match_entry := mk_match {
  opp : user_id_t;
  res : result;
  mtype : string
}.

(** The JSON object of one run.  [ended_at] and [user_id] are the keys that
    [archive_run] adds; a run that was never archived has neither. *)
Record run := mk_run {
  name : string;
  run_id : string;
  leader : string;
  base : string;
  opponents_played : list user_id_t;
  match_results : list match_entry;
  ended_at : option instant;
  user_id : option user_id_t
}.

(** A parsed element of the history file: the wall clock fields of the ISO
    string and its UTC offset, if the string carries one. *)
Record stamp := mk_stamp {
  wall : Z;
  tzoffset : option Z
}.

Record store := mk_store {
  runs : dict user_id_t run;                     (* current_runs.json *)
  completed : dict string run;                   (* completed_runs.json *)
  history : dict user_id_t (list stamp);         (* user_history.json *)
  player_queue : dict user_id_t instant;
  pending_deck_links : dict user_id_t instant;
  pending_manual_reports : dict user_id_t instant;
  pending_reactivations : dict user_id_t instant
}.

Definition empty_store : store := mk_store [] [] [] [] [] [] [].

Definition set_runs (x : dict user_id_t run) (st : store) : store :=
  mk_store x (completed st) (history st) (player_queue st)
    (pending_deck_links st) (pending_manual_reports st)
    (pending_reactivations st).

Definition set_completed (x : dict string run) (st : store) : store :=
  mk_store (runs st) x (history st) (player_queue st)
    (pending_deck_links st) (pending_manual_reports st)
    (pending_reactivations st).

Definition set_history (x : dict user_id_t (list stamp)) (st : store) : store :=
  mk_store (runs st) (completed st) x (player_queue st)
    (pending_deck_links st) (pending_manual_reports st)
    (pending_reactivations st).

Definition set_queue (x : dict user_id_t instant) (st : store) : store :=
  mk_store (runs st) (completed st) (history st) x
    (pending_deck_links st) (pending_manual_reports st)
    (pending_reactivations st).

Definition set_pending_deck (x : dict user_id_t instant) (st : store) : store :=
  mk_store (runs st) (completed st) (history st) (player_queue st)
    x (pending_manual_reports st) (pending_reactivations st).

Definition set_pending_manual (x : dict user_id_t instant) (st : store) : store :=
  mk_store (runs st) (completed st) (history st) (player_queue st)
    (pending_deck_links st) x (pending_reactivations st).

Definition set_pending_react (x : dict user_id_t instant) (st : store) : store :=
  mk_store (runs st) (completed st) (history st) (player_queue st)
    (pending_deck_links st) (pending_manual_reports st) x.

(** What a handler tells its caller. *)
Inductive reply :=
  | Ok
  | OkAuto            (* "Auto-confirmed (Opponent timed out)." *)
  | NotLoser          (* "Only the person reported as the loser can ..." *)
  | NoActiveRun       (* "... do not have an active run" *)
  | SelfMatch         (* "A player cannot play against themselves" *)
  | AlreadyPlayed     (* "You have already played against ..." *)
  | AlreadyActive     (* "You already have an active run!" *)
  | LimitReached      (* "You've reached the daily run limit!" *)
  | AlreadyQueued     (* "You are already in the queue!" *)
  | NotFound          (* "Could not find a ... run with ID ..." *)
  | NoStoredUser      (* "Could not find a stored User ID in the archive" *)
  | Conflict          (* "... already has a different active run" *)
  | InvalidDeck       (* "That doesn't look like a valid SWUDB JSON export" *)
  | InvalidNumber     (* "Please provide a valid numerical User ID." *)
  | NoChannel         (* "Error: Admin channel not found." *)
  | Expired           (* a pending flow had timed out *)
  | Ignored           (* no branch of the handler applied *)
  | Caught            (* [force_result]'s [except Exception] *)
  | Raised            (* an uncaught [KeyError], or an attribute of [None] *)
  | Undelivered.      (* an uncaught exception out of a send *)

(** ** The Discord side *)

(** What Discord does with the requests of one handler call. *)
Record discord := mk_discord {
  get_user : user_id_t -> bool;  (* [bot.get_user(uid)] is not [None] *)
  dm : user_id_t -> bool;        (* [await u.send(...)] to that user returns *)
  respond : bool;                (* the answers to what is being handled
                                    return:
                                    [interaction.response.send_message],
                                    [message.channel.send], [ctx.send] *)
  get_channel : bool;            (* [bot.get_channel(...)] finds the
                                    channel the handler asks for *)
  post : bool                    (* [await <channel>.send(...)] to that
                                    channel returns *)
}.

(** Everybody is known and every message goes through. *)
Definition online : discord :=
  mk_discord (fun _ => true) (fun _ => true) true true true.

(** [u = bot.get_user(uid)] followed by [if u: await u.send(...)]: [false]
    when the send raises. *)
Definition notify (net : discord) (uid : user_id_t) : bool :=
  if get_user net uid then dm net uid else true.

(** ** Time and the daily limit *)

Definition usec_per_second : Z := 1000000.
Definition usec_per_hour : Z := 3600 * usec_per_second.
Definition usec_per_day : Z := 24 * usec_per_hour.

Section Zone.

(** The zone US/Pacific as pytz presents it: [utcoffset t] is the offset
    from UTC (in microseconds) in force at the instant [t].
    [datetime.now(tz)] returns the wall clock [t + utcoffset t] tagged with
    that fixed offset; [replace] and the subtraction of a [timedelta] act on
    the wall clock fields and keep the tag. *)
Variable utcoffset : instant -> Z.

(** [get_last_3am_pacific()], as the instant its result denotes. *)
Definition get_last_3am_pacific (now : instant) : instant :=
  let off := utcoffset now in
  let now_pacific := now + off in
  let today_3am :=
    (now_pacific / usec_per_day) * usec_per_day + 3 * usec_per_hour in
  if now_pacific <? today_3am
  then (today_3am - usec_per_day) - off
  else today_3am - off.

(** The instant of a stored timestamp after [datetime.fromisoformat]: an
    aware value is compared as the instant it denotes; a naive one goes
    through [pytz.utc.localize], which reads its fields as UTC. *)
Definition run_time (ts : stamp) : instant :=
  match tzoffset ts with
  | Some off => wall ts - off
  | None => wall ts
  end.

Definition can_start_run (now : instant) (uid : user_id_t) (st : store) : bool :=
  let user_runs :=
    match Dict.get uid (history st) with Some l => l | None => [] end in
  let cutoff := get_last_3am_pacific now in
  let count := length (filter (fun ts => cutoff <? run_time ts) user_runs) in
  (count <? MAX_RUNS_PER_DAY)%nat.

End Zone.

(** [log_new_run_timestamp]: [datetime.now(pytz.utc).isoformat()] carries
    the offset [+00:00]. *)
Definition log_new_run_timestamp (uid : user_id_t) (now : instant) (st : store)
  : store :=
  let old := match Dict.get uid (history st) with Some l => l | None => [] end in
  set_history (Dict.set uid (old ++ [mk_stamp now (Some 0)]) (history st)) st.

(** ** Archiving *)

(** [run_data["ended_at"] = ...; run_data["user_id"] = user_id]. *)
Definition close_run (r : run) (uid : user_id_t) (now : instant) : run :=
  mk_run (name r) (run_id r) (leader r) (base r) (opponents_played r)
         (match_results r) (Some now) (Some uid).

Definition archive_run (uid : user_id_t) (now : instant) (st : store)
  : option run * store :=
  match Dict.get uid (runs st) with
  | None => (None, st)
  | Some r =>
      let run_data := close_run r uid now in
      let st1 :=
        set_completed (Dict.set (run_id run_data) run_data (completed st))
          (set_runs (Dict.pop uid (runs st)) st) in
      let st2 :=
        if Dict.mem uid (player_queue st1)
        then set_queue (Dict.pop uid (player_queue st1)) st1
        else st1 in
      (Some run_data, st2)
  end.

(** ** Recording a result *)

(** The two statements every recording path runs for one player:
    [runs[str(uid)]["opponents_played"].append(opp)] and
    [runs[str(uid)]["match_results"].append({...})]. *)
Definition with_result (d : run) (e : match_entry) : run :=
  mk_run (name d) (run_id d) (leader d) (base d)
         (opponents_played d ++ [opp e]) (match_results d ++ [e])
         (ended_at d) (user_id d).

(** The same on the handler's copy of the table; [None] is the [KeyError]
    of [runs[str(uid)]]. *)
Definition add_result (uid : user_id_t) (e : match_entry)
    (tbl : dict user_id_t run) : option (dict user_id_t run) :=
  match Dict.get uid tbl with
  | None => None
  | Some d => Some (Dict.set uid (with_result d e) tbl)
  end.

(** Winner first, then loser. *)
Definition log_results (w l : user_id_t) (ty : string)
    (tbl : dict user_id_t run) : option (dict user_id_t run) :=
  match add_result w (mk_match l W ty) tbl with
  | None => None
  | Some tbl1 => add_result l (mk_match w L ty) tbl1
  end.

(** [len(runs[str(uid)]["match_results"]) >= MATCH_LIMIT], read in the
    handler's copy of the table. *)
Definition run_complete (tbl : dict user_id_t run) (uid : user_id_t) : bool :=
  match Dict.get uid tbl with
  | Some d => (MATCH_LIMIT <=? length (match_results d))%nat
  | None => false
  end.

(** The loop [for uid in [winner, loser]: if len(...) >= MATCH_LIMIT:
    await archive_run(uid); u = bot.get_user(uid); if u: await u.send(...)]
    that closes every recording path.  The length is read in the handler's
    copy [tbl]; [archive_run] works on the files.  [told uid] says whether
    the sends that follow the archival of [uid] return; the first one that
    raises ends the loop and the handler with it, after [uid] was archived.
    The boolean says whether the loop ran to its end. *)
Fixpoint auto_archive (told : user_id_t -> bool) (tbl : dict user_id_t run)
    (uids : list user_id_t) (now : instant) (st : store) : bool * store :=
  match uids with
  | [] => (true, st)
  | uid :: rest =>
      if run_complete tbl uid
      then
        let st' := snd (archive_run uid now st) in
        if told uid then auto_archive told tbl rest now st' else (false, st')
      else auto_archive told tbl rest now st
  end.

(** ** ResultView: confirm, dispute, timeout *)

(** The attributes of a [ResultView].  [stopped] is the state that
    [View.stop()] sets ([View.is_finished()]). *)
Record result_view := mk_view {
  winner_id : user_id_t;
  loser_id : user_id_t;
  match_type : string;
  confirmed : bool;
  stopped : bool
}.

Definition ResultView (w l : user_id_t) (ty : string) : result_view :=
  mk_view w l ty false false.

Definition mark_confirmed (v : result_view) : result_view :=
  mk_view (winner_id v) (loser_id v) (match_type v) true (stopped v).

Definition stop (v : result_view) : result_view :=
  mk_view (winner_id v) (loser_id v) (match_type v) (confirmed v) true.

(** [ResultView.process_results] up to and including [save_json]: the mark,
    the two appends and the save.  A [KeyError] leaves the files as they
    were (nothing was saved) but the view already marked. *)
Definition record_phase (v : result_view) (st : store)
  : result_view * option (dict user_id_t run * store) :=
  let v1 := mark_confirmed v in
  match log_results (winner_id v) (loser_id v) (match_type v) (runs st) with
  | None => (v1, None)
  | Some tbl => (v1, Some (tbl, set_runs tbl st))
  end.

(** The rest of [process_results], after the two notifications in [try]
    were awaited: the completion loop over the handler's copy [tbl] and,
    when the loop ran to its end, [self.stop()]. *)
Definition archive_phase (net : discord) (v : result_view)
    (tbl : dict user_id_t run) (now : instant) (st : store)
  : result_view * bool * store :=
  let out := auto_archive (notify net) tbl [winner_id v; loser_id v] now st in
  (if fst out then stop v else v, fst out, snd out).

(** [process_results] when nothing else runs while it awaits.  [is_auto]
    chooses between the two texts sent to the players and nothing else. *)
Definition process_results (net : discord) (v : result_view) (is_auto : bool)
    (now : instant) (st : store) : result_view * reply * store :=
  match record_phase v st with
  | (v1, None) => (v1, Raised, st)
  | (v1, Some (tbl, st1)) =>
      let '(v2, done, st2) := archive_phase net v1 tbl now st1 in
      (v2,
       if done then (if is_auto then OkAuto else Ok) else Undelivered,
       st2)
  end.

Definition confirm (net : discord) (v : result_view) (actor : user_id_t)
    (now : instant) (st : store) : result_view * reply * store :=
  if negb (actor =? loser_id v) then (v, NotLoser, st)
  else process_results net v false now st.

(** The [DisputeResolutionView] that a dispute posts to the admin channel. *)
Record dispute_view := mk_dispute { p1 : user_id_t; p2 : user_id_t }.

(** [dispute]: the mark and [self.stop()] come first; then the loser is
    answered and the winner is looked up and told, outside any [try]; then
    the view goes to the admin channel, if there is one.  The labels of that
    view read [winner_user.name], which raises when the winner was not
    found. *)
Definition dispute (net : discord) (v : result_view) (actor : user_id_t)
    (st : store) : result_view * reply * store * option dispute_view :=
  if negb (actor =? loser_id v) then (v, NotLoser, st, None)
  else
    let v' := stop (mark_confirmed v) in
    if negb (respond net) then (v', Undelivered, st, None)
    else if get_user net (winner_id v)
    then
      if dm net (winner_id v)
      then
        if get_channel net
        then
          if post net
          then (v', Ok, st, Some (mk_dispute (winner_id v) (loser_id v)))
          else (v', Undelivered, st, None)
        else (v', Ok, st, None)
      else (v', Undelivered, st, None)
    else
      if get_channel net then (v', Raised, st, None) else (v', Ok, st, None).

Definition on_timeout (net : discord) (v : result_view) (now : instant)
    (st : store) : result_view * reply * store :=
  if negb (confirmed v) then process_results net v true now st
  else (v, Ignored, st).

(** What can reach a [ResultView]. *)
Inductive view_event :=
  | ClickConfirm (actor : user_id_t)
  | ClickDispute (actor : user_id_t)
  | TimerFired.

(** The callbacks as such, whatever the state of the view. *)
Definition view_callback (net : discord) (ev : view_event) (v : result_view)
    (now : instant) (st : store) : result_view * reply * store :=
  match ev with
  | ClickConfirm actor => confirm net v actor now st
  | ClickDispute actor => fst (dispute net v actor st)
  | TimerFired => on_timeout net v now st
  end.

(** discord.py's side of a view.  Once the view is finished its timer is
    cancelled and its buttons are no longer routed to the callbacks.  A
    click on a live view goes to its callback.  When the timer of a live
    view runs out, discord.py first finishes the view
    ([View._dispatch_timeout]) and then calls [on_timeout]. *)
Definition view_dispatch (net : discord) (ev : view_event) (v : result_view)
    (now : instant) (st : store) : result_view * reply * store :=
  if stopped v then (v, Ignored, st)
  else
    match ev with
    | TimerFired => on_timeout net (stop v) now st
    | _ => view_callback net ev v now st
    end.

(** ** DisputeResolutionView *)

(** After the check: the appends and the save, the two notifications in
    [try], the answer to the administrator, and the completion loop. *)
Definition resolve (net : discord) (winner loser : user_id_t) (now : instant)
    (st : store) : reply * store :=
  if negb (Dict.mem winner (runs st)) || negb (Dict.mem loser (runs st))
  then (NoActiveRun, st)
  else
    match log_results winner loser "admin_dispute" (runs st) with
    | None => (Raised, st)
    | Some tbl =>
        if respond net
        then
          let out := auto_archive (notify net) tbl [winner; loser] now
                       (set_runs tbl st) in
          (if fst out then Ok else Undelivered, snd out)
        else (Undelivered, set_runs tbl st)
    end.

Definition p1_wins (net : discord) (d : dispute_view) :=
  resolve net (p1 d) (p2 d).
Definition p2_wins (net : discord) (d : dispute_view) :=
  resolve net (p2 d) (p1 d).

(** ** MatchReportView *)

(** [win_claim]: the view sent to the loser. *)
Definition win_claim (mp1 mp2 actor : user_id_t) : result_view :=
  ResultView actor (if actor =? mp1 then mp2 else mp1) "queue".

(** ** The queue *)

(** [x in l] for a Python list of identifiers. *)
Definition played (x : user_id_t) (l : list user_id_t) : bool :=
  existsb (Z.eqb x) l.

(** [sorted(player_queue.items(), key=lambda item: item[1])]: a stable sort
    on the join time; entries with equal times keep the order of the
    dictionary. *)
Fixpoint insert_by_time (x : user_id_t * instant)
    (l : list (user_id_t * instant)) : list (user_id_t * instant) :=
  match l with
  | [] => [x]
  | y :: l' => if snd x <=? snd y then x :: y :: l'
               else y :: insert_by_time x l'
  end.

Definition sorted_queue (q : dict user_id_t instant)
  : list (user_id_t * instant) :=
  fold_right insert_by_time [] q.

Inductive scan_result :=
  | Pair (a b : user_id_t)
  | NoPair
  | ScanKeyError.

(** The nested loops of [check_for_match] up to the point where a pair is
    chosen.  [runs[str(p1_id)]] is evaluated once per candidate [j], so a
    player without a run raises only when somebody waits behind them. *)
Fixpoint scan_queue (tbl : dict user_id_t run) (uids : list user_id_t)
  : scan_result :=
  match uids with
  | [] => NoPair
  | a :: rest =>
      match rest with
      | [] => NoPair
      | _ :: _ =>
          match Dict.get a tbl with
          | None => ScanKeyError
          | Some r =>
              match find (fun b => negb (played b (opponents_played r))) rest with
              | Some b => Pair a b
              | None => scan_queue tbl rest
              end
          end
      end
  end.

Inductive match_outcome :=
  | MatchFound (a b : user_id_t)     (* both were told *)
  | MatchAborted (a b : user_id_t)   (* chosen and dequeued, then [p1.send],
                                        [p2.name] or [runs[str(p2_id)]]
                                        raised *)
  | MatchUntold (a b : user_id_t)    (* ... then the message to [a] raised *)
  | MatchHalfTold (a b : user_id_t)  (* [a] was told, the message to [b]
                                        raised *)
  | NoMatch
  | MatchRaised.                     (* [KeyError] while scanning *)

(** Both players leave the queue as soon as the pair is chosen.  The two
    users are then looked up and the first message is built, which reads
    [p1.send], [p2.name] and [runs[str(p2_id)]]; the two messages are sent
    one after the other, outside any [try]. *)
Definition check_for_match (net : discord) (st : store)
  : match_outcome * store :=
  let uids := Dict.keys (sorted_queue (player_queue st)) in
  match scan_queue (runs st) uids with
  | Pair a b =>
      let st' := set_queue (Dict.pop b (Dict.pop a (player_queue st))) st in
      if get_user net a && get_user net b && Dict.mem b (runs st)
      then
        if dm net a
        then
          if dm net b then (MatchFound a b, st') else (MatchHalfTold a b, st')
        else (MatchUntold a b, st')
      else (MatchAborted a b, st')
  | NoPair => (NoMatch, st)
  | ScanKeyError => (MatchRaised, st)
  end.

Definition join_queue_logic (net : discord) (uid : user_id_t) (now : instant)
    (st : store) : match_outcome * store :=
  check_for_match net (set_queue (Dict.set uid now (player_queue st)) st).

(** ** The button of the league channel *)

Definition start_run (utcoffset : instant -> Z) (uid : user_id_t)
    (now : instant) (st : store) : reply * store :=
  if Dict.mem uid (runs st) then (AlreadyActive, st)
  else if negb (can_start_run utcoffset now uid st) then (LimitReached, st)
  else (Ok, set_pending_deck (Dict.set uid now (pending_deck_links st)) st).

(** ** Direct messages *)

Inductive command :=
  | REPORT_MATCH | FINISH | STOP | STATUS | MY_DATA
  | REQUEST_REACTIVATION | HELP | QUEUED | ENTER_QUEUE.

(** A message, with what [on_message] reads off its text. *)
Record message := mk_message {
  author : user_id_t;
  author_name : string;
  content : string;             (* [message.content.strip()] *)
  as_int : option Z;            (* [int(content)]; [None] for [ValueError] *)
  as_deck : string * string;    (* [parse_deck_json(content)] *)
  as_command : option command   (* the command [content.upper()] spells *)
}.

(** The views a handler sends out. *)
Inductive spawned :=
  | NoView
  | SentResultView (v : result_view)
  | SentMatchReport (a b : user_id_t)
  | SentApproval (uid : user_id_t) (rid : string).

Definition spawned_of_match (o : match_outcome) : spawned :=
  match o with
  | MatchFound a b | MatchHalfTold a b => SentMatchReport a b
  | _ => NoView
  end.

Definition reply_of_match (o : match_outcome) : reply :=
  match o with
  | MatchAborted _ _ | MatchRaised => Raised
  | MatchUntold _ _ | MatchHalfTold _ _ => Undelivered
  | _ => Ok
  end.

(** [(now - start_time).total_seconds() > limit]. *)
Definition older_than (limit_s : Z) (now start : instant) : bool :=
  limit_s * usec_per_second <? now - start.

Definition string_neqb (a b : string) : bool :=
  if string_dec a b then false else true.

(** The branch [if uid in pending_manual_reports].  On success the pending
    report is deleted first and the reporter is answered; the view then
    goes to the opponent by direct message, if [bot.get_user] finds the
    opponent. *)
Definition manual_report_branch (net : discord) (m : message)
    (start now : instant) (st : store) : reply * store * spawned :=
  let uid := author m in
  if older_than 300 now start
  then (Expired,
        set_pending_manual (Dict.pop uid (pending_manual_reports st)) st,
        NoView)
  else
    match as_int m with
    | None => (InvalidNumber, st, NoView)
    | Some opp_id =>
        if opp_id =? uid then (SelfMatch, st, NoView)
        else if negb (Dict.mem opp_id (runs st)) then (NoActiveRun, st, NoView)
        else
          match Dict.get uid (runs st) with
          | None => (Raised, st, NoView)
          | Some r =>
              if played opp_id (opponents_played r)
              then (AlreadyPlayed, st, NoView)
              else
                let st' := set_pending_manual
                             (Dict.pop uid (pending_manual_reports st)) st in
                if negb (respond net) then (Undelivered, st', NoView)
                else if get_user net opp_id
                then
                  if dm net opp_id
                  then (Ok, st',
                        SentResultView (ResultView uid opp_id "local"))
                  else (Undelivered, st', NoView)
                else (Ok, st', NoView)
          end
    end.

(** The branch [if uid in pending_deck_links]; [fresh] is
    [str(uuid.uuid4())[:8]]. *)
Definition deck_branch (m : message) (start now : instant) (fresh : string)
    (st : store) : reply * store * spawned :=
  let uid := author m in
  if older_than 600 now start
  then (Expired, set_pending_deck (Dict.pop uid (pending_deck_links st)) st,
        NoView)
  else
    let '(leader_name, base_name) := as_deck m in
    if string_neqb leader_name "Private Leader"
       && string_neqb base_name "Private Base"
    then
      let r := mk_run (author_name m) fresh leader_name base_name [] []
                      None None in
      let st1 := set_runs (Dict.set uid r (runs st)) st in
      let st2 := log_new_run_timestamp uid now st1 in
      (Ok, set_pending_deck (Dict.pop uid (pending_deck_links st2)) st2,
       NoView)
    else (InvalidDeck, st, NoView).

(** The branch [elif uid in pending_reactivations], for a text the earlier
    branches did not take. *)
Definition reactivation_branch (net : discord) (m : message) (now : instant)
    (st : store) : reply * store * spawned :=
  let uid := author m in
  match Dict.get uid (pending_reactivations st) with
  | None => (Ignored, st, NoView)
  | Some start =>
      if older_than 600 now start
      then (Ignored,
            set_pending_react (Dict.pop uid (pending_reactivations st)) st,
            NoView)
      else if negb (Dict.mem (content m) (completed st))
      then (NotFound, st, NoView)
      else
        let st' :=
          set_pending_react (Dict.pop uid (pending_reactivations st)) st in
        if get_channel net
        then
          if post net then (Ok, st', SentApproval uid (content m))
          else (Undelivered, st', NoView)
        else (NoChannel, st', NoView)
  end.

(** The chain of [elif]s on the text of the message. *)
Definition command_branch (net : discord) (m : message) (now : instant)
    (st : store) : reply * store * spawned :=
  let uid := author m in
  match as_command m with
  | Some REPORT_MATCH =>
      if negb (Dict.mem uid (runs st)) then (NoActiveRun, st, NoView)
      else (Ok,
            set_pending_manual (Dict.set uid now (pending_manual_reports st)) st,
            NoView)
  | Some FINISH =>
      match archive_run uid now st with
      | (Some _, st') => (Ok, st', NoView)
      | (None, st') => (NoActiveRun, st', NoView)
      end
  | Some STOP =>
      if Dict.mem uid (player_queue st)
      then (Ok, set_queue (Dict.pop uid (player_queue st)) st, NoView)
      else reactivation_branch net m now st
  | Some STATUS =>
      if negb (Dict.mem uid (runs st)) then (NoActiveRun, st, NoView)
      else (Ok, st, NoView)
  | Some MY_DATA | Some HELP | Some QUEUED => (Ok, st, NoView)
  | Some REQUEST_REACTIVATION =>
      (Ok, set_pending_react (Dict.set uid now (pending_reactivations st)) st,
       NoView)
  | Some ENTER_QUEUE =>
      if Dict.mem uid (runs st)
      then
        if Dict.mem uid (player_queue st) then (AlreadyQueued, st, NoView)
        else
          let '(o, st') := join_queue_logic net uid now st in
          (reply_of_match o, st', spawned_of_match o)
      else (NoActiveRun, st, NoView)
  | None => reactivation_branch net m now st
  end.

(** The opening loop of [on_message] over [pending_deck_links] and
    [pending_reactivations]: the first expired flow of the author is
    dropped and the message goes no further. *)
Definition expiry_sweep (uid : user_id_t) (now : instant) (st : store)
  : option store :=
  match Dict.get uid (pending_deck_links st) with
  | Some start =>
      if older_than 600 now start
      then Some (set_pending_deck (Dict.pop uid (pending_deck_links st)) st)
      else
        match Dict.get uid (pending_reactivations st) with
        | Some start' =>
            if older_than 600 now start'
            then Some (set_pending_react
                         (Dict.pop uid (pending_reactivations st)) st)
            else None
        | None => None
        end
  | None =>
      match Dict.get uid (pending_reactivations st) with
      | Some start' =>
          if older_than 600 now start'
          then Some (set_pending_react
                       (Dict.pop uid (pending_reactivations st)) st)
          else None
      | None => None
      end
  end.

Definition on_message (net : discord) (m : message) (now : instant)
    (fresh : string) (st : store) : reply * store * spawned :=
  let uid := author m in
  match expiry_sweep uid now st with
  | Some st' => (Expired, st', NoView)
  | None =>
      match Dict.get uid (pending_manual_reports st) with
      | Some start => manual_report_branch net m start now st
      | None =>
          match Dict.get uid (pending_deck_links st) with
          | Some start => deck_branch m start now fresh st
          | None => command_branch net m now st
          end
      end
  end.

(** ** ReactivationApprovalView *)

Definition approve (uid : user_id_t) (rid : string) (st : store)
  : reply * store :=
  match Dict.get rid (completed st) with
  | None => (NotFound, st)
  | Some run_data =>
      (Ok, set_completed (Dict.pop rid (completed st))
             (set_runs (Dict.set uid run_data (runs st)) st))
  end.

(** ** Administrator commands *)

(** What the administrator reads when the [try] of [force_result] raised:
    the handler sends the error with [ctx.send] as well. *)
Definition caught (net : discord) : reply :=
  if respond net then Caught else Undelivered.

(** The two refusals come before the [try].  Inside it: the appends and the
    save, the message that the result was logged, and the completion loop,
    which here tells the player and then the command channel. *)
Definition force_result (net : discord) (winner loser : user_id_t)
    (now : instant) (st : store) : reply * store :=
  if negb (Dict.mem winner (runs st)) || negb (Dict.mem loser (runs st))
  then (NoActiveRun, st)
  else if winner =? loser then (SelfMatch, st)
  else
    match log_results winner loser "admin_forced" (runs st) with
    | None => (caught net, st)
    | Some tbl =>
        if respond net
        then
          let out := auto_archive (fun uid => notify net uid && respond net)
                       tbl [winner; loser] now (set_runs tbl st) in
          (if fst out then Ok else caught net, snd out)
        else (caught net, set_runs tbl st)
    end.

Definition cancel_run (uid : user_id_t) (st : store) : reply * store :=
  if negb (Dict.mem uid (runs st)) then (NoActiveRun, st)
  else
    let st1 := set_runs (Dict.pop uid (runs st)) st in
    let st2 := if Dict.mem uid (player_queue st1)
               then set_queue (Dict.pop uid (player_queue st1)) st1
               else st1 in
    let st3 := if Dict.mem uid (history st2)
               then set_history (Dict.pop uid (history st2)) st2
               else st2 in
    (Ok, st3).

(** [str(run_data.get("user_id"))] is ["None"] exactly when the archived
    object has no ["user_id"]. *)
Definition reactivate_run (rid : string) (st : store) : reply * store :=
  match Dict.get rid (completed st) with
  | None => (NotFound, st)
  | Some run_data =>
      match user_id run_data with
      | None => (NoStoredUser, st)
      | Some uid =>
          if Dict.mem uid (runs st) then (Conflict, st)
          else (Ok, set_completed (Dict.pop rid (completed st))
                      (set_runs (Dict.set uid run_data (runs st)) st))
      end
  end.

Definition delete_run (rid : string) (st : store) : reply * store :=
  if Dict.mem rid (completed st)
  then (Ok, set_completed (Dict.pop rid (completed st)) st)
  else
    match find (fun kv => if string_dec (run_id (snd kv)) rid
                          then true else false) (runs st) with
    | Some (uid, _) => (Ok, set_runs (Dict.pop uid (runs st)) st)
    | None => (NotFound, st)
    end.

(** ** Runs of the whole machine *)

(** The store-changing events that arrive from outside.  (The events of a
    [ResultView] act on the view as well and are applied through
    [view_dispatch].) *)
Inductive event :=
  | Ev_start_run (uid : user_id_t)
  | Ev_message (m : message) (fresh : string)
  | Ev_force_result (winner loser : user_id_t)
  | Ev_resolve (winner loser : user_id_t)
  | Ev_cancel_run (uid : user_id_t)
  | Ev_reactivate_run (rid : string)
  | Ev_delete_run (rid : string)
  | Ev_approve (uid : user_id_t) (rid : string).

Definition step (utcoffset : instant -> Z) (net : discord) (now : instant)
    (ev : event) (st : store) : store :=
  match ev with
  | Ev_start_run uid => snd (start_run utcoffset uid now st)
  | Ev_message m fresh => snd (fst (on_message net m now fresh st))
  | Ev_force_result w l => snd (force_result net w l now st)
  | Ev_resolve w l => snd (resolve net w l now st)
  | Ev_cancel_run uid => snd (cancel_run uid st)
  | Ev_reactivate_run rid => snd (reactivate_run rid st)
  | Ev_delete_run rid => snd (delete_run rid st)
  | Ev_approve uid rid => snd (approve uid rid st)
  end.

(** A run of events, all under the same answers of Discord. *)
Fixpoint run_events (utcoffset : instant -> Z) (net : discord)
    (evs : list (instant * event)) (st : store) : store :=
  match evs with
  | [] => st
  | (now, ev) :: rest =>
      run_events utcoffset net rest (step utcoffset net now ev st)
  end.

(** The four entry points that record a result. *)
Inductive recording_op :=
  | QueueConfirm (v : result_view)        (* the loser presses Confirm *)
  | TimeoutAutoConfirm (v : result_view)  (* the 60 s of the view elapse *)
  | DisputeResolution (winner loser : user_id_t)
  | ForceResult (winner loser : user_id_t).

Definition op_winner (op : recording_op) : user_id_t :=
  match op with
  | QueueConfirm v | TimeoutAutoConfirm v => winner_id v
  | DisputeResolution w _ | ForceResult w _ => w
  end.

Definition op_loser (op : recording_op) : user_id_t :=
  match op with
  | QueueConfirm v | TimeoutAutoConfirm v => loser_id v
  | DisputeResolution _ l | ForceResult _ l => l
  end.

Definition run_op (net : discord) (op : recording_op) (now : instant)
    (st : store) : reply * store :=
  match op with
  | QueueConfirm v =>
      let '(_, r, st') := confirm net v (loser_id v) now st in (r, st')
  | TimeoutAutoConfirm v =>
      let '(_, r, st') := on_timeout net v now st in (r, st')
  | DisputeResolution w l => resolve net w l now st
  | ForceResult w l => force_result net w l now st
  end.

Definition succeeded (r : reply) : bool :=
  match r with Ok | OkAuto => true | _ => false end.

(** ** The statements of the specification *)

(** The wall clock time of day that the zone shows at an instant. *)
Definition local_time_of_day (utcoffset : instant -> Z) (t : instant) : Z :=
  (t + utcoffset t) mod usec_per_day.

Definition reset_time_of_day : Z := 3 * usec_per_hour.

(** "The most recent occurrence of the fixed local reset time-of-day that is
    at or before now". *)
Definition is_reset_anchor (utcoffset : instant -> Z) (now a : instant)
  : Prop :=
  a <= now /\
  local_time_of_day utcoffset a = reset_time_of_day /\
  forall t, a < t <= now -> local_time_of_day utcoffset t <> reset_time_of_day.

(** "The number of that player's stored run-start timestamps strictly after
    the reset anchor". *)
Definition starts_after (a : instant) (uid : user_id_t) (st : store) : nat :=
  match Dict.get uid (history st) with
  | Some l => length (filter (fun ts => a <? run_time ts) l)
  | None => 0%nat
  end.

(** US/Pacific between the two changes of 2024 and the first of 2025:
    Pacific Daylight Time (UTC-7) from 2024-03-10T10:00:00Z until
    2024-11-03T09:00:00Z, Pacific Standard Time (UTC-8) around it. *)
Definition pdt_begins_2024 : instant := 1710064800 * usec_per_second.
Definition pdt_ends_2024 : instant := 1730624400 * usec_per_second.

Definition us_pacific (t : instant) : Z :=
  if (pdt_begins_2024 <=? t) && (t <? pdt_ends_2024)
  then - 7 * usec_per_hour
  else - 8 * usec_per_hour.

(** A zone that never changes its offset. *)
Definition fixed_zone (off : Z) (t : instant) : Z := off.

(** The run a player had is either still active or archived under its id. *)
Definition run_of (st : store) (uid : user_id_t) (rid : string) : option run :=
  match Dict.get uid (runs st) with
  | Some r => Some r
  | None => Dict.get rid (completed st)
  end.

(** The player's run is in the archive and nowhere else. *)
Definition archived (st : store) (uid : user_id_t) (rid : string) : Prop :=
  Dict.get uid (runs st) = None /\
  Dict.mem uid (player_queue st) = false /\
  exists r, Dict.get rid (completed st) = Some r /\ user_id r = Some uid.

(** [b] may be paired behind [a]: [a] has a run and [b] is not among its
    [opponents_played]. *)
Definition admissible (tbl : dict user_id_t run) (a b : user_id_t) : Prop :=
  exists r, Dict.get a tbl = Some r /\ ~ In b (opponents_played r).

(** [(a, b)] is the first admissible pair of [uids] in the order of the two
    loops: no pair at an earlier [(i, j)] is admissible. *)
Definition first_admissible_pair (tbl : dict user_id_t run)
    (uids : list user_id_t) (a b : user_id_t) : Prop :=
  exists i j : nat,
    (i < j)%nat /\ nth_error uids i = Some a /\ nth_error uids j = Some b /\
    admissible tbl a b /\
    forall (i' j' : nat) a' b',
      (i' < j')%nat -> (i' < i \/ (i' = i /\ j' < j))%nat ->
      nth_error uids i' = Some a' -> nth_error uids j' = Some b' ->
      ~ admissible tbl a' b'.

Definition no_admissible_pair (tbl : dict user_id_t run)
    (uids : list user_id_t) : Prop :=
  forall (i j : nat) a b,
    (i < j)%nat -> nth_error uids i = Some a -> nth_error uids j = Some b ->
    ~ admissible tbl a b.

Definition by_join_time (x y : user_id_t * instant) : Prop := snd x <= snd y.

(** The ["type"] each entry point writes. *)
Definition op_type (op : recording_op) : string :=
  match op with
  | QueueConfirm v | TimeoutAutoConfirm v => match_type v
  | DisputeResolution _ _ => "admin_dispute"
  | ForceResult _ _ => "admin_forced"
  end.

(** Where a player's run [r'] is when a recording call ends: archived as
    soon as it holds [MATCH_LIMIT] results, active otherwise. *)
Definition settled (st' : store) (p : user_id_t) (r' : run) (now : instant)
  : Prop :=
  if (MATCH_LIMIT <=? length (match_results r'))%nat
  then Dict.get p (runs st') = None /\
       Dict.mem p (player_queue st') = false /\
       Dict.get (run_id r') (completed st') = Some (close_run r' p now)
  else Dict.get p (runs st') = Some r'.

(** The run holds [MATCH_LIMIT] results or more. *)
Definition full (r : run) : bool :=
  (MATCH_LIMIT <=? length (match_results r))%nat.

(** What a recording call sends between its save and its completion loop
    goes through: the answer to the administrator in [resolve] and in
    [force_result]; [process_results] sends nothing there that can raise. *)
Definition op_announced (net : discord) (op : recording_op) : bool :=
  match op with
  | DisputeResolution _ _ | ForceResult _ _ => respond net
  | _ => true
  end.

(** The notices that follow the archival of [uid] in the completion loop go
    through: the direct message to the player and, for [force_result], the
    message to the command channel. *)
Definition op_told (net : discord) (op : recording_op) (uid : user_id_t)
  : bool :=
  match op with
  | ForceResult _ _ => notify net uid && respond net
  | _ => notify net uid
  end.

(** The completion loop gets as far as the loser: it was entered, and the
    winner's turn raised nothing.  [rw'] is the winner's run after the
    append. *)
Definition reaches_loser (net : discord) (op : recording_op) (rw' : run)
  : bool :=
  op_announced net op && (negb (full rw') || op_told net op (op_winner op)).

(** Every notice of the call goes through.  [rw'] and [rl'] are the two
    runs after the append. *)
Definition all_told (net : discord) (op : recording_op) (rw' rl' : run)
  : bool :=
  op_announced net op
  && (negb (full rw') || op_told net op (op_winner op))
  && (negb (full rl') || op_told net op (op_loser op)).

(** ** Scenarios *)

(** On 3 November 2024 US/Pacific went back from daylight to standard time
    at 09:00 UTC.  At 09:30 UTC (01:30 PST) the last local 03:00 was the one
    of 2 November, 10:00 UTC (03:00 PDT). *)
Definition fallback_now : instant := 1730626200 * usec_per_second.
Definition fallback_anchor : instant := 1730541600 * usec_per_second.

(** A player who started two runs on 2 November at 10:30 UTC, stored as
    [2024-11-02T10:30:00+00:00]. *)
Definition fallback_history : store :=
  set_history
    [(7, [mk_stamp (1730543400 * usec_per_second) (Some 0);
          mk_stamp (1730543400 * usec_per_second) (Some 0)])]
    empty_store.

Definition plain_run (nm rid : string) (opps : list user_id_t)
    (ms : list match_entry) : run :=
  mk_run nm rid "Han Solo" "Echo Base" opps ms None None.

(** Three players wait; 1 joined first and has already met 2. *)
Definition queue_scenario : store :=
  set_queue [(3, 30); (1, 10); (2, 20)]
    (set_runs
       [(1, plain_run "one" "r1" [2] [mk_match 2 W "queue"]);
        (2, plain_run "two" "r2" [1] [mk_match 1 L "queue"]);
        (3, plain_run "three" "r3" [] [])]
       empty_store).

(** A registration: the button, then the deck export by direct message. *)
Definition deck_message (uid : user_id_t) (nm : string) : message :=
  mk_message uid nm "deck export" None ("Han Solo", "Echo Base")%string None.

Definition registration (uid : user_id_t) (nm rid : string) (t : instant)
  : list (instant * event) :=
  [(t, Ev_start_run uid); (t + 1, Ev_message (deck_message uid nm) rid)].

Definition command_message (uid : user_id_t) (nm txt : string) (c : command)
  : message :=
  mk_message uid nm txt None ("Private Leader", "Private Base")%string
             (Some c).

(** 1 June 2024, 12:00 UTC. *)
Definition noon : instant := 1717243200 * usec_per_second.

(** Five players register; player 1 wins three forced results, which
    archives the run, and an administrator reactivates it. *)
Definition reactivated_full_run : list (instant * event) :=
  registration 1 "P" "aaaaaaaa" noon
  ++ registration 2 "A" "bbbbbbbb" (noon + 10)
  ++ registration 3 "B" "cccccccc" (noon + 20)
  ++ registration 4 "C" "dddddddd" (noon + 30)
  ++ registration 5 "D" "eeeeeeee" (noon + 40)
  ++ [(noon + 50, Ev_force_result 1 2);
      (noon + 60, Ev_force_result 1 3);
      (noon + 70, Ev_force_result 1 4);
      (noon + 80, Ev_reactivate_run "aaaaaaaa")].

(** Player 1 waits in the queue with two results on record; player 2 has
    none. *)
Definition limit_scenario : store :=
  set_queue [(1, noon)]
    (set_runs
       [(1, plain_run "one" "r1" [3; 4]
              [mk_match 3 W "queue"; mk_match 4 L "queue"]);
        (2, plain_run "two" "r2" [] [])]
       empty_store).

(** Players 1 and 2 each stand at two results. *)
Definition both_at_two : store :=
  set_runs
    [(1, plain_run "one" "r1" [3; 4]
           [mk_match 3 W "queue"; mk_match 4 L "queue"]);
     (2, plain_run "two" "r2" [3; 4]
           [mk_match 3 L "queue"; mk_match 4 W "queue"])]
    empty_store.

(** Player 1 takes no direct messages; everything else goes through. *)
Definition closed_dms : discord :=
  mk_discord (fun _ => true) (fun uid => negb (uid =? 1)) true true true.

(** Two registered players without results. *)
Definition two_players : store :=
  run_events us_pacific online
    (registration 1 "P" "aaaaaaaa" noon
     ++ registration 2 "Q" "bbbbbbbb" (noon + 10))
    empty_store.

(** Player 1 claims a win over player 2 in a queue match. *)
Definition claimed_win : result_view := win_claim 1 2 1.

(** Player 1 registers and finishes the run early. *)
Definition finished_early : store :=
  run_events us_pacific online
    (registration 1 "P" "aaaaaaaa" noon
     ++ [(noon + 10, Ev_message (command_message 1 "P" "FINISH" FINISH)
                       "unused")])
    empty_store.

(** Player 1 registers and enters the queue; an administrator then deletes
    the run by its id. *)
Definition queued_then_deleted : list (instant * event) :=
  registration 1 "P" "aaaaaaaa" noon
  ++ [(noon + 10, Ev_message (command_message 1 "P" "ENTER_QUEUE" ENTER_QUEUE)
                    "unused");
      (noon + 20, Ev_delete_run "aaaaaaaa")].

(** The same with [cancel_run] in place of [delete_run]. *)
Definition queued_then_cancelled : list (instant * event) :=
  registration 1 "P" "aaaaaaaa" noon
  ++ [(noon + 10, Ev_message (command_message 1 "P" "ENTER_QUEUE" ENTER_QUEUE)
                    "unused");
      (noon + 20, Ev_cancel_run 1)].

(** A text that [int()] reads as the identifier [n]. *)
Definition id_message (uid : user_id_t) (nm txt : string) (n : Z) : message :=
  mk_message uid nm txt (Some n) ("Private Leader", "Private Base")%string
             None.

(** Player 1 finishes early, registers again, and the first run is then
    asked back. *)
Definition reactivated_after_restart : store :=
  run_events us_pacific online
    (registration 1 "P" "ffffffff" (noon + 20))
    finished_early.

(** Players 1 and 2 have played; player 1 finishes early, registers a
    second run and enters the queue. *)
Definition rematch_setup : list (instant * event) :=
  registration 1 "P" "aaaaaaaa" noon
  ++ registration 2 "Q" "bbbbbbbb" (noon + 10)
  ++ [(noon + 30, Ev_force_result 1 2);
      (noon + 40, Ev_message (command_message 1 "P" "FINISH" FINISH) "unused")]
  ++ registration 1 "P" "ffffffff" (noon + 50)
  ++ [(noon + 60, Ev_message (command_message 1 "P" "ENTER_QUEUE" ENTER_QUEUE)
                    "unused")].

(** ** Housekeeping loops *)

(** The pattern of [queue_cleanup] and [passive_timeout_cleanup]: collect
    the keys whose entry is older than the limit, then delete them one by
    one.  (The program divides a float number of seconds; at a resolution of
    microseconds the comparison is the one of [older_than].) *)
Definition sweep (limit_s : Z) (now : instant) (d : dict user_id_t instant)
  : dict user_id_t instant :=
  let to_remove :=
    Dict.keys (filter (fun kv => older_than limit_s now (snd kv)) d) in
  fold_left (fun acc uid => Dict.pop uid acc) to_remove d.

(** [queue_cleanup]: [wait_time > 60] minutes. *)
Definition queue_cleanup (now : instant) (st : store) : store :=
  set_queue (sweep 3600 now (player_queue st)) st.

(** [passive_timeout_cleanup]: both pending tables, 600 seconds. *)
Definition passive_timeout_cleanup (now : instant) (st : store) : store :=
  let st1 := set_pending_deck (sweep 600 now (pending_deck_links st)) st in
  set_pending_react (sweep 600 now (pending_reactivations st1)) st1.

(** ** Looking a run up *)

Inductive status_type := ACTIVE | COMPLETED.

Definition has_run_id (rid : string) (kv : user_id_t * run) : bool :=
  if string_dec (run_id (snd kv)) rid then true else false.

(** The search of [get_run_data]: the active runs in the order of the file,
    then the archive. *)
Definition get_run_data (rid : string) (st : store)
  : option (run * status_type) :=
  match find (has_run_id rid) (runs st) with
  | Some (_, data) => Some (data, ACTIVE)
  | None =>
      match Dict.get rid (completed st) with
      | Some data => Some (data, COMPLETED)
      | None => None
      end
  end.

(** ** Scores *)

Definition is_win (m : match_entry) : bool :=
  match res m with W => true | L => false end.

Definition is_loss (m : match_entry) : bool :=
  match res m with W => false | L => true end.

(** [sum(1 for m in results if m["res"] == "W")] and the same for ["L"]. *)
Definition wins (ms : list match_entry) : nat := length (filter is_win ms).
Definition losses (ms : list match_entry) : nat := length (filter is_loss ms).

(** The test of [archive_run] that fires the trophy announcement. *)
Definition earns_trophy (r : run) : bool :=
  (wins (match_results r) =? 3)%nat && (losses (match_results r) =? 0)%nat.

(** The score the [FINISH] branch shows: [wins] and
    [len(data["match_results"]) - wins]. *)
Definition finish_score (r : run) : nat * nat :=
  (wins (match_results r),
   (length (match_results r) - wins (match_results r))%nat).

(** ** The performance report *)

#[export] Instance option_user_EqDec : EqDec (option user_id_t) :=
  fun x y =>
    match x, y with
    | Some a, Some b =>
        match Z.eq_dec a b with
        | left e => left (f_equal Some e)
        | right n => right (fun h : Some a = Some b =>
                              n (f_equal (fun o => match o with
                                                   | Some c => c
                                                   | None => a
                                                   end) h))
        end
    | None, None => left eq_refl
    | Some a, None =>
        right (fun h : Some a = None =>
                 eq_ind (Some a) (fun o => match o with
                                           | Some _ => True
                                           | None => False
                                           end) I None h)
    | None, Some b =>
        right (fun h : None = Some b =>
                 eq_ind None (fun o => match o with
                                       | Some _ => False
                                       | None => True
                                       end) I (Some b) h)
    end.

(** One row of [user_stats] in [generate_user_performance_report]. *)
Record user_stat := mk_stat {
  stat_name : string;
  stat_wins : nat;
  stat_losses : nat;
  positive_runs : nat
}.

(** The body of the loop over [completed_runs.values()].  The key is
    [str(run.get("user_id"))]: the id, or ["None"] for a record without
    one. *)
Definition add_run_stats (user_stats : dict (option user_id_t) user_stat)
    (r : run) : dict (option user_id_t) user_stat :=
  let uid := user_id r in
  let cur := match Dict.get uid user_stats with
             | Some s => s
             | None => mk_stat (name r) 0 0 0
             end in
  let run_wins := wins (match_results r) in
  let run_losses := losses (match_results r) in
  Dict.set uid
    (mk_stat (stat_name cur)
             (stat_wins cur + run_wins) (stat_losses cur + run_losses)
             (positive_runs cur
              + (if (run_losses <? run_wins)%nat then 1 else 0)))
    user_stats.

(** The dictionary the report is drawn from. *)
Definition user_stats (st : store) : dict (option user_id_t) user_stat :=
  fold_left add_run_stats (map snd (completed st)) [].

(** Column totals, over the rows of the report and over the archive. *)
Definition total {K V : Type} (f : V -> nat) (d : dict K V) : nat :=
  fold_right (fun kv acc => (f (snd kv) + acc)%nat) 0%nat d.

Definition run_is_positive (r : run) : nat :=
  if (losses (match_results r) <? wins (match_results r))%nat
  then 1%nat else 0%nat.

(** ** Stores the program can be in *)

(** Everything that changes the store, starting from files that do not
    exist yet: the events of [step], the callbacks of a [ResultView] (on any
    view), the two parts of [process_results] taken apart, and the two
    housekeeping loops. *)
Inductive reachable (utcoffset : instant -> Z) : store -> Prop :=
  | reach_empty : reachable utcoffset empty_store
  | reach_event net now ev st :
      reachable utcoffset st ->
      reachable utcoffset (step utcoffset net now ev st)
  | reach_view net ev v now st :
      reachable utcoffset st ->
      reachable utcoffset (snd (view_callback net ev v now st))
  | reach_record v st v1 tbl st1 :
      reachable utcoffset st ->
      record_phase v st = (v1, Some (tbl, st1)) ->
      reachable utcoffset st1
  | reach_archive uid now st :
      reachable utcoffset st ->
      reachable utcoffset (snd (archive_run uid now st))
  | reach_queue_cleanup now st :
      reachable utcoffset st -> reachable utcoffset (queue_cleanup now st)
  | reach_passive_cleanup now st :
      reachable utcoffset st ->
      reachable utcoffset (passive_timeout_cleanup now st).

(** The opponents of a run are the opponents of its results, in order. *)
Definition aligned (r : run) : Prop :=
  opponents_played r = map opp (match_results r).

(** An archived record sits under its own id and names its owner and its
    end. *)
Definition filed (k : string) (r : run) : Prop :=
  run_id r = k /\ user_id r <> None /\ ended_at r <> None.

Definition every_value {K V : Type} (P : V -> Prop) (d : dict K V) : Prop :=
  Forall (fun kv => P (snd kv)) d.

Definition every_entry {K V : Type} (P : K -> V -> Prop) (d : dict K V)
  : Prop :=
  Forall (fun kv => P (fst kv) (snd kv)) d.

Definition unique_keys {K V : Type} (d : dict K V) : Prop :=
  NoDup (Dict.keys d).

(** What holds of every store the program reaches. *)
Definition well_kept (st : store) : Prop :=
  every_value aligned (runs st) /\
  every_value aligned (completed st) /\
  every_entry filed (completed st) /\
  every_value (Forall (fun ts => tzoffset ts = Some 0)) (history st) /\
  unique_keys (runs st) /\ unique_keys (completed st) /\
  unique_keys (player_queue st) /\
  unique_keys (pending_deck_links st) /\
  unique_keys (pending_reactivations st).

(** At [noon] plus 61 minutes: player 1 joined at [noon], player 2 a
    minute ago. *)
Definition hour_later : instant := noon + 3660 * usec_per_second.

Definition stale_queue : store :=
  set_queue [(1, noon); (2, noon + 3600 * usec_per_second)] two_players.

(** Player 1 pressed the button at [noon] and never sent a deck; player 2
    asked for a reactivation a minute before [hour_later]. *)
Definition stale_flows : store :=
  set_pending_react [(2, noon + 3600 * usec_per_second)]
    (set_pending_deck [(1, noon)] empty_store).

(** Player 1 has pressed the button at [noon]. *)
Definition awaiting_deck : store :=
  run_events us_pacific online [(noon, Ev_start_run 1)] empty_store.

(** Player 1, registered, has typed REPORT_MATCH. *)
Definition awaiting_opponent : store :=
  run_events us_pacific online
    [(noon + 20,
      Ev_message (command_message 1 "P" "REPORT_MATCH" REPORT_MATCH) "unused")]
    two_players.

(** Player 1 has finished early; player 2 asks for a reactivation. *)
Definition asking_reactivation : store :=
  run_events us_pacific online
    (registration 1 "P" "aaaaaaaa" noon
     ++ registration 2 "Q" "bbbbbbbb" (noon + 10)
     ++ [(noon + 20,
          Ev_message (command_message 1 "P" "FINISH" FINISH) "unused");
         (noon + 30,
          Ev_message (command_message 2 "Q" "REQUEST_REACTIVATION"
                        REQUEST_REACTIVATION) "unused")])
    empty_store.

(** The text of a run id. *)
Definition text_message (uid : user_id_t) (nm txt : string) : message :=
  mk_message uid nm txt None ("Private Leader", "Private Base")%string None.

(** * Facts *)

(** ** Dictionaries *)

Section DictFacts.
Context {K V : Type} {HK : EqDec K}.
Implicit Types (k : K) (v : V) (d : dict K V).

Lemma get_set_eq k v d : Dict.get k (Dict.set k v d) = Some v.
Proof.
  induction d as [|[k' v'] d IH]; simpl.
  - destruct (eq_dec k k); congruence.
  - destruct (eq_dec k k') as [E|N]; simpl.
    + destruct (eq_dec k k); congruence.
    + destruct (eq_dec k k'); congruence.
Qed.

Lemma get_set_ne k k' v d :
  k' <> k -> Dict.get k' (Dict.set k v d) = Dict.get k' d.
Proof.
  intros Hne. induction d as [|[k0 v0] d IH]; simpl.
  - destruct (eq_dec k' k); congruence.
  - destruct (eq_dec k k0) as [E|N]; simpl.
    + subst k0. destruct (eq_dec k' k); congruence.
    + destruct (eq_dec k' k0); congruence.
Qed.

Lemma get_pop_eq k d : Dict.get k (Dict.pop k d) = None.
Proof.
  induction d as [|[k0 v0] d IH]; simpl; auto.
  destruct (eq_dec k k0) as [E|N]; simpl; auto.
  destruct (eq_dec k k0); congruence.
Qed.

Lemma get_pop_ne k k' d :
  k' <> k -> Dict.get k' (Dict.pop k d) = Dict.get k' d.
Proof.
  intros Hne. induction d as [|[k0 v0] d IH]; simpl; auto.
  destruct (eq_dec k k0) as [E|N]; simpl.
  - subst k0. destruct (eq_dec k' k); congruence.
  - destruct (eq_dec k' k0); congruence.
Qed.

Lemma mem_true k d : Dict.mem k d = true <-> exists v, Dict.get k d = Some v.
Proof.
  unfold Dict.mem. destruct (Dict.get k d) as [v|]; split; intros H.
  - now exists v.
  - reflexivity.
  - discriminate.
  - destruct H as [v H]. discriminate.
Qed.

Lemma mem_false k d : Dict.mem k d = false <-> Dict.get k d = None.
Proof.
  unfold Dict.mem. destruct (Dict.get k d); split; intros H; congruence.
Qed.

Lemma mem_get k v d : Dict.get k d = Some v -> Dict.mem k d = true.
Proof. intros H. apply mem_true. eauto. Qed.

Lemma mem_pop_eq k d : Dict.mem k (Dict.pop k d) = false.
Proof. apply mem_false, get_pop_eq. Qed.

Lemma mem_pop_ne k k' d :
  k' <> k -> Dict.mem k' (Dict.pop k d) = Dict.mem k' d.
Proof. intros H. unfold Dict.mem. now rewrite get_pop_ne. Qed.

Lemma mem_pop_false k k' d :
  Dict.mem k' d = false -> Dict.mem k' (Dict.pop k d) = false.
Proof.
  intros H. destruct (eq_dec k' k) as [->|N].
  - apply mem_pop_eq.
  - now rewrite mem_pop_ne.
Qed.

End DictFacts.

(** ** The reset anchor and the daily limit *)

Lemma usec_per_day_pos : 0 < usec_per_day.
Proof. reflexivity. Qed.

(** [can_start_run] counts the stored starts after its own cutoff. *)
Lemma can_start_run_counts utcoffset now uid st :
  can_start_run utcoffset now uid st = true <->
  (starts_after (get_last_3am_pacific utcoffset now) uid st
   < MAX_RUNS_PER_DAY)%nat.
Proof.
  unfold can_start_run, starts_after.
  destruct (Dict.get uid (history st)) as [l|]; simpl;
    rewrite Nat.ltb_lt; reflexivity.
Qed.

(** The cutoff of the program is at or before [now], less than a day old,
    and reads 03:00 on a clock that keeps the offset in force at [now]. *)
Lemma get_last_3am_pacific_shape utcoffset now :
  let a := get_last_3am_pacific utcoffset now in
  a <= now < a + usec_per_day /\
  (a + utcoffset now) mod usec_per_day = reset_time_of_day.
Proof.
  unfold get_last_3am_pacific, reset_time_of_day.
  set (off := utcoffset now). set (x := now + off).
  assert (Hd : usec_per_day = 24 * usec_per_hour) by reflexivity.
  assert (Hh : usec_per_hour = 3600000000) by reflexivity.
  pose proof (Z.div_mod x usec_per_day ltac:(rewrite Hd, Hh; lia)) as Hx.
  pose proof (Z.mod_pos_bound x usec_per_day usec_per_day_pos) as Hb.
  set (q := x / usec_per_day) in *. set (m := x mod usec_per_day) in *.
  destruct (Z.ltb_spec x (q * usec_per_day + 3 * usec_per_hour)) as [Hlt|Hge].
  - split; [unfold x in *; lia|].
    replace (q * usec_per_day + 3 * usec_per_hour - usec_per_day - off + off)
      with (3 * usec_per_hour + (q - 1) * usec_per_day) by ring.
    rewrite Z.mod_add by (rewrite Hd, Hh; lia).
    apply Z.mod_small. rewrite Hd, Hh. lia.
  - split; [unfold x in *; lia|].
    replace (q * usec_per_day + 3 * usec_per_hour - off + off)
      with (3 * usec_per_hour + q * usec_per_day) by ring.
    rewrite Z.mod_add by (rewrite Hd, Hh; lia).
    apply Z.mod_small. rewrite Hd, Hh. lia.
Qed.

(** Where the zone keeps one offset from the cutoff to [now], the cutoff is
    the reset anchor of the specification. *)
Lemma get_last_3am_pacific_is_anchor utcoffset now :
  (forall t, get_last_3am_pacific utcoffset now <= t <= now ->
             utcoffset t = utcoffset now) ->
  is_reset_anchor utcoffset now (get_last_3am_pacific utcoffset now).
Proof.
  intros Hconst.
  destruct (get_last_3am_pacific_shape utcoffset now) as [Hr Hm].
  set (a := get_last_3am_pacific utcoffset now) in *.
  unfold is_reset_anchor, local_time_of_day. repeat split.
  - lia.
  - rewrite Hconst by lia. exact Hm.
  - intros t Ht Heq. rewrite Hconst in Heq by lia.
    set (off := utcoffset now) in *.
    assert (Hd : usec_per_day = 86400000000) by reflexivity.
    assert (H3 : reset_time_of_day = 10800000000) by reflexivity.
    rewrite Hd, H3 in *.
    pose proof (Z.div_mod (a + off) 86400000000 ltac:(lia)) as E1.
    pose proof (Z.div_mod (t + off) 86400000000 ltac:(lia)) as E2.
    rewrite Hm in E1. rewrite Heq in E2. lia.
Qed.

(** The reset anchor is unique. *)
Lemma is_reset_anchor_unique utcoffset now a b :
  is_reset_anchor utcoffset now a -> is_reset_anchor utcoffset now b -> a = b.
Proof.
  intros (Ha1 & Ha2 & Ha3) (Hb1 & Hb2 & Hb3).
  destruct (Z.lt_trichotomy a b) as [H|[H|H]]; auto.
  - exfalso. apply (Ha3 b); [lia | assumption].
  - exfalso. apply (Hb3 a); [lia | assumption].
Qed.

(** In a zone without changes of offset [can_start_run] is the rule of the
    specification. *)
Lemma can_start_run_fixed_zone off now uid st a :
  is_reset_anchor (fixed_zone off) now a ->
  (can_start_run (fixed_zone off) now uid st = true <->
   (starts_after a uid st < MAX_RUNS_PER_DAY)%nat).
Proof.
  intros Ha.
  assert (E : a = get_last_3am_pacific (fixed_zone off) now).
  { eapply is_reset_anchor_unique; [exact Ha|].
    apply get_last_3am_pacific_is_anchor. reflexivity. }
  subst a. apply can_start_run_counts.
Qed.

Lemma us_pacific_around_fallback t :
  pdt_begins_2024 <= t ->
  (t < pdt_ends_2024 /\ us_pacific t = -25200000000) \/
  (pdt_ends_2024 <= t /\ us_pacific t = -28800000000).
Proof.
  intros Hb. unfold us_pacific.
  destruct (Z.leb_spec pdt_begins_2024 t) as [_|H]; [|lia].
  destruct (Z.ltb_spec t pdt_ends_2024) as [H2|H2]; cbn [andb].
  - left. split; [exact H2 | reflexivity].
  - right. split; [exact H2 | reflexivity].
Qed.

Lemma fallback_anchor_is_reset_anchor :
  is_reset_anchor us_pacific fallback_now fallback_anchor.
Proof.
  unfold is_reset_anchor, local_time_of_day. split; [|split].
  - vm_compute. discriminate.
  - vm_compute. reflexivity.
  - intros t Ht Heq.
    assert (Hd : usec_per_day = 86400000000) by reflexivity.
    assert (H3 : reset_time_of_day = 10800000000) by reflexivity.
    assert (Hn : fallback_now = 1730626200000000) by reflexivity.
    assert (Ha : fallback_anchor = 1730541600000000) by reflexivity.
    assert (Hb : pdt_begins_2024 = 1710064800000000) by reflexivity.
    assert (He : pdt_ends_2024 = 1730624400000000) by reflexivity.
    rewrite Hd, H3 in Heq. rewrite Hn, Ha in Ht.
    destruct (us_pacific_around_fallback t ltac:(lia)) as [[H2 Ho]|[H2 Ho]];
      rewrite Ho in Heq; rewrite He in H2.
    + pose proof (Z.div_mod (t + -25200000000) 86400000000 ltac:(lia)) as E.
      rewrite Heq in E. lia.
    + pose proof (Z.div_mod (t + -28800000000) 86400000000 ltac:(lia)) as E.
      rewrite Heq in E. lia.
Qed.

(** C2 (the code departs from the claim).  At 01:30 PST on the day US/Pacific
    leaves daylight time, [get_last_3am_pacific] returns 2 November 11:00 UTC,
    which is 04:00 of the Pacific clock of that day, while the most recent
    03:00 Pacific was at 10:00 UTC.  A player with two starts at 10:30 UTC
    has two starts after the reset anchor, and [can_start_run] still answers
    [true]. *)
Theorem can_start_run_dst_fallback :
  is_reset_anchor us_pacific fallback_now fallback_anchor /\
  starts_after fallback_anchor 7 fallback_history = MAX_RUNS_PER_DAY /\
  get_last_3am_pacific us_pacific fallback_now
    = fallback_anchor + usec_per_hour /\
  local_time_of_day us_pacific (get_last_3am_pacific us_pacific fallback_now)
    = 4 * usec_per_hour /\
  can_start_run us_pacific fallback_now 7 fallback_history = true.
Proof.
  split; [exact fallback_anchor_is_reset_anchor|].
  repeat split; vm_compute; reflexivity.
Qed.

(** ** Matchmaking *)

Lemma played_In x l : played x l = true <-> In x l.
Proof.
  unfold played. rewrite existsb_exists. split.
  - intros (y & Hy & E). apply Z.eqb_eq in E. now subst.
  - intros H. exists x. split; [assumption | apply Z.eqb_refl].
Qed.

Lemma insert_by_time_perm x l : Permutation (insert_by_time x l) (x :: l).
Proof.
  induction l as [|y l IH]; simpl; [reflexivity|].
  destruct (snd x <=? snd y); [reflexivity|].
  rewrite IH. apply perm_swap.
Qed.

Lemma sorted_queue_perm q : Permutation (sorted_queue q) q.
Proof.
  induction q as [|x q IH]; simpl; [constructor|].
  rewrite insert_by_time_perm. now constructor.
Qed.

Lemma insert_by_time_sorted x l :
  StronglySorted by_join_time l ->
  StronglySorted by_join_time (insert_by_time x l).
Proof.
  induction 1 as [|y l Hs IH Hall]; simpl.
  - repeat constructor.
  - destruct (Z.leb_spec (snd x) (snd y)) as [Hle|Hgt].
    + constructor; [now constructor|].
      constructor; [exact Hle|].
      eapply Forall_impl; [|exact Hall].
      unfold by_join_time. intros; lia.
    + constructor; [exact IH|].
      eapply Permutation_Forall.
      * symmetry. apply insert_by_time_perm.
      * constructor; [unfold by_join_time; lia | exact Hall].
Qed.

Lemma sorted_queue_sorted q : StronglySorted by_join_time (sorted_queue q).
Proof.
  induction q as [|x q IH]; simpl; [constructor|].
  now apply insert_by_time_sorted.
Qed.

(** [find] returns the first element that passes, with its position. *)
Lemma find_first {A} (f : A -> bool) l b :
  find f l = Some b ->
  exists j, nth_error l j = Some b /\ f b = true /\
            forall j' b', (j' < j)%nat -> nth_error l j' = Some b' ->
                          f b' = false.
Proof.
  induction l as [|x l IH]; simpl; [discriminate|].
  destruct (f x) eqn:Fx.
  - intros [= ->]. exists 0%nat. repeat split; auto. intros; lia.
  - intros H. destruct (IH H) as (j & Hj & Hb & Hmin).
    exists (S j). repeat split; auto.
    intros [|j'] b' Hlt Hn; simpl in Hn.
    + congruence.
    + apply (Hmin j'); [lia | assumption].
Qed.

Lemma not_admissible_played tbl a r b :
  Dict.get a tbl = Some r -> played b (opponents_played r) = true ->
  ~ admissible tbl a b.
Proof.
  intros Hg Hp (r' & Hg' & Hn). rewrite Hg in Hg'. injection Hg' as <-.
  apply Hn, played_In, Hp.
Qed.

Lemma scan_queue_pair tbl uids a b :
  scan_queue tbl uids = Pair a b -> first_admissible_pair tbl uids a b.
Proof.
  induction uids as [|a0 rest IH]; simpl; [discriminate|].
  destruct rest as [|b0 rest']; [discriminate|].
  destruct (Dict.get a0 tbl) as [r|] eqn:Hg; [|discriminate].
  set (f := fun b => negb (played b (opponents_played r))).
  destruct (find f (b0 :: rest')) as [b1|] eqn:Hf.
  - intros [= -> ->].
    destruct (find_first _ _ _ Hf) as (j & Hj & Hb & Hmin).
    exists 0%nat, (S j). repeat split; [lia | exact Hj | | ].
    + exists r. split; [exact Hg|].
      intros Hin. apply played_In in Hin. unfold f in Hb.
      rewrite Hin in Hb. discriminate.
    + intros i' j' a' b' Hlt [Hi|[-> Hj']] Hn1 Hn2; [lia|].
      destruct j' as [|j']; [lia|]. simpl in Hn1, Hn2.
      injection Hn1 as <-.
      apply (not_admissible_played _ _ r); [exact Hg|].
      specialize (Hmin j' b' ltac:(lia) Hn2). unfold f in Hmin.
      now apply negb_false_iff in Hmin.
  - intros Hs. destruct (IH Hs) as (i & j & Hij & Hi & Hj & Hadm & Hmin).
    exists (S i), (S j). repeat split; [lia | exact Hi | exact Hj | exact Hadm |].
    intros i' j' a' b' Hlt Hord Hn1 Hn2.
    destruct j' as [|j']; [lia|].
    destruct i' as [|i']; simpl in Hn1, Hn2.
    + injection Hn1 as <-.
      apply (not_admissible_played _ _ r); [exact Hg|].
      apply nth_error_In in Hn2.
      pose proof (find_none _ _ Hf _ Hn2) as Hx. unfold f in Hx.
      now apply negb_false_iff in Hx.
    + apply (Hmin i' j'); [lia | lia | assumption | assumption].
Qed.

Lemma scan_queue_nopair tbl uids :
  scan_queue tbl uids = NoPair -> no_admissible_pair tbl uids.
Proof.
  induction uids as [|a0 rest IH]; simpl.
  - intros _ i j a b _ Hn. destruct i; discriminate.
  - destruct rest as [|b0 rest'].
    + intros _ i j a b Hlt Hn1 Hn2.
      destruct j as [|[|j]]; simpl in Hn2; [lia | discriminate | discriminate].
    + destruct (Dict.get a0 tbl) as [r|] eqn:Hg; [|discriminate].
      set (f := fun b => negb (played b (opponents_played r))).
      destruct (find f (b0 :: rest')) as [b1|] eqn:Hf; [discriminate|].
      intros Hs i j a b Hlt Hn1 Hn2.
      destruct j as [|j]; [lia|].
      destruct i as [|i]; simpl in Hn1, Hn2.
      * injection Hn1 as <-.
        apply (not_admissible_played _ _ r); [exact Hg|].
        apply nth_error_In in Hn2.
        pose proof (find_none _ _ Hf _ Hn2) as Hx. unfold f in Hx.
        now apply negb_false_iff in Hx.
      * apply (IH Hs i j); [lia | assumption | assumption].
Qed.

(** C3.  [check_for_match] walks the queue in ascending join time; the pair
    it takes is the first one, in the order of its two loops, whose second
    player is not in the first player's [opponents_played]; both players
    have left the queue when the call ends (also when the announcement then
    fails, whoever was told by then), nobody else has, and without a pair
    nothing changes. *)
Theorem check_for_match_first_admissible net st o st' :
  check_for_match net st = (o, st') ->
  let waiting := sorted_queue (player_queue st) in
  Permutation waiting (player_queue st) /\
  StronglySorted by_join_time waiting /\
  runs st' = runs st /\ completed st' = completed st /\
  match o with
  | MatchFound a b | MatchAborted a b | MatchUntold a b | MatchHalfTold a b =>
      first_admissible_pair (runs st) (Dict.keys waiting) a b /\
      (forall r, Dict.get a (runs st) = Some r ->
                 ~ In b (opponents_played r)) /\
      Dict.mem a (player_queue st') = false /\
      Dict.mem b (player_queue st') = false /\
      forall c, c <> a -> c <> b ->
                Dict.get c (player_queue st') = Dict.get c (player_queue st)
  | NoMatch =>
      st' = st /\ no_admissible_pair (runs st) (Dict.keys waiting)
  | MatchRaised => st' = st
  end.
Proof.
  intros Hc waiting.
  split; [apply sorted_queue_perm|].
  split; [apply sorted_queue_sorted|].
  unfold check_for_match in Hc. fold waiting in Hc.
  destruct (scan_queue (runs st) (Dict.keys waiting)) as [a b| |] eqn:Hs.
  - assert (Hpair := scan_queue_pair _ _ _ _ Hs).
    assert (Hq : forall st1, st1 = set_queue
                (Dict.pop b (Dict.pop a (player_queue st))) st ->
              runs st1 = runs st /\ completed st1 = completed st /\
              first_admissible_pair (runs st) (Dict.keys waiting) a b /\
              (forall r, Dict.get a (runs st) = Some r ->
                         ~ In b (opponents_played r)) /\
              Dict.mem a (player_queue st1) = false /\
              Dict.mem b (player_queue st1) = false /\
              forall c, c <> a -> c <> b ->
                Dict.get c (player_queue st1) = Dict.get c (player_queue st)).
    { intros st1 ->. simpl. repeat split; auto.
      - intros r Hr. destruct Hpair as (_ & _ & _ & _ & _ & (r' & Hr' & Hn) & _).
        congruence.
      - apply mem_pop_false, mem_pop_eq.
      - apply mem_pop_eq.
      - intros c Ha Hb. now rewrite !get_pop_ne. }
    destruct (get_user net a && get_user net b && Dict.mem b (runs st));
      [destruct (dm net a); [destruct (dm net b)|]|];
      injection Hc as <- <-;
      destruct (Hq _ eq_refl) as (H1 & H2 & H3); auto.
  - injection Hc as <- <-. repeat split; auto.
    now apply scan_queue_nopair.
  - injection Hc as <- <-. auto.
Qed.

Lemma check_for_match_first_admissible_witness :
  check_for_match online queue_scenario
    = (MatchFound 1 3, set_queue [(2, 20)] queue_scenario) /\
  first_admissible_pair (runs queue_scenario) [1; 2; 3] 1 3 /\
  Dict.mem 1 [(2, 20)] = false /\ Dict.mem 3 [(2, 20)] = false.
Proof.
  split; [reflexivity|].
  pose proof (check_for_match_first_admissible online queue_scenario
                (MatchFound 1 3) (set_queue [(2, 20)] queue_scenario)
                eq_refl) as H.
  simpl in H. destruct H as (_ & _ & _ & _ & Hp & _ & Ha & Hb & _).
  exact (conj Hp (conj Ha Hb)).
Defined.

(** ** Recording a result *)

Lemma log_results_both w l ty tbl rw rl :
  w <> l -> Dict.get w tbl = Some rw -> Dict.get l tbl = Some rl ->
  exists tbl',
    log_results w l ty tbl = Some tbl' /\
    Dict.get w tbl' = Some (with_result rw (mk_match l W ty)) /\
    Dict.get l tbl' = Some (with_result rl (mk_match w L ty)) /\
    forall c, c <> w -> c <> l -> Dict.get c tbl' = Dict.get c tbl.
Proof.
  intros Hne Hw Hl. unfold log_results, add_result. rewrite Hw.
  rewrite get_set_ne by congruence. rewrite Hl.
  eexists. split; [reflexivity|]. repeat split.
  - rewrite get_set_ne by congruence. apply get_set_eq.
  - apply get_set_eq.
  - intros c Hc1 Hc2. now rewrite !get_set_ne by congruence.
Qed.

(** [log_results] succeeds only on two players with runs. *)
Lemma log_results_some w l ty tbl tbl' :
  log_results w l ty tbl = Some tbl' ->
  Dict.mem w tbl = true /\ Dict.mem l tbl = true.
Proof.
  unfold log_results, add_result.
  destruct (Dict.get w tbl) as [rw|] eqn:Hw; [|discriminate].
  destruct (Z.eq_dec l w) as [->|Hne].
  - intros _. split; eapply mem_get; eassumption.
  - rewrite get_set_ne by congruence.
    destruct (Dict.get l tbl) as [rl|] eqn:Hl; [|discriminate].
    intros _. split; eapply mem_get; eassumption.
Qed.

Lemma archive_run_present uid now st r :
  Dict.get uid (runs st) = Some r ->
  let st' := snd (archive_run uid now st) in
  runs st' = Dict.pop uid (runs st) /\
  completed st' = Dict.set (run_id r) (close_run r uid now) (completed st) /\
  Dict.mem uid (player_queue st') = false /\
  (forall c, Dict.mem c (player_queue st) = false ->
             Dict.mem c (player_queue st') = false) /\
  (forall c, c <> uid ->
             Dict.get c (player_queue st') = Dict.get c (player_queue st)) /\
  history st' = history st.
Proof.
  intros Hr. unfold archive_run. rewrite Hr. simpl.
  destruct (Dict.mem uid (player_queue st)) eqn:Hq; simpl.
  - repeat split; auto.
    + apply mem_pop_eq.
    + intros c Hc. now apply mem_pop_false.
    + intros c Hc. now rewrite get_pop_ne.
  - repeat split; auto.
Qed.

Lemma archive_run_absent uid now st :
  Dict.get uid (runs st) = None -> archive_run uid now st = (None, st).
Proof. intros H. unfold archive_run. now rewrite H. Qed.

(** A settled run is found by [run_of] with the fields of the run as it was
    when the results were appended. *)
Lemma settled_run_of st' p r' now :
  settled st' p r' now ->
  exists r'',
    run_of st' p (run_id r') = Some r'' /\
    match_results r'' = match_results r' /\
    opponents_played r'' = opponents_played r' /\
    run_id r'' = run_id r' /\ leader r'' = leader r' /\ base r'' = base r'.
Proof.
  unfold settled, run_of.
  destruct (MATCH_LIMIT <=? length (match_results r'))%nat.
  - intros (Hr & _ & Hc). rewrite Hr, Hc.
    exists (close_run r' p now). repeat split.
  - intros Hr. rewrite Hr. exists r'. repeat split.
Qed.

(** The completion loop after the two appends.  The winner's run is
    archived exactly when it holds at least [MATCH_LIMIT] results; so is the
    loser's when the loop gets to it, that is, unless the notice to an
    archived winner raised, and then the loser's run is still active.  The
    loop runs to its end exactly when every notice it sends goes through. *)
Lemma auto_archive_settles told w l tbl st now rw' rl' :
  w <> l ->
  Dict.get w tbl = Some rw' -> Dict.get l tbl = Some rl' ->
  run_id rw' <> run_id rl' ->
  let out := auto_archive told tbl [w; l] now (set_runs tbl st) in
  settled (snd out) w rw' now /\
  (if negb (full rw') || told w then settled (snd out) l rl' now
   else Dict.get l (runs (snd out)) = Some rl') /\
  fst out = (negb (full rw') || told w) && (negb (full rl') || told l).
Proof.
  intros Hne Hw Hl Hrid. cbn [auto_archive].
  unfold run_complete, settled, full. rewrite Hw, Hl.
  destruct (MATCH_LIMIT <=? length (match_results rw'))%nat eqn:Cw;
    cbn [negb orb].
  - destruct (archive_run_present w now (set_runs tbl st) rw' Hw)
      as (Er & Ec & Eq & Eqf & _).
    set (stA := snd (archive_run w now (set_runs tbl st))) in *.
    assert (HlA : Dict.get l (runs stA) = Some rl').
    { rewrite Er. simpl. now rewrite get_pop_ne by congruence. }
    destruct (told w); cbn [fst snd andb].
    + destruct (MATCH_LIMIT <=? length (match_results rl'))%nat eqn:Cl;
        cbn [negb orb].
      * destruct (archive_run_present l now stA rl' HlA)
          as (Er' & Ec' & Eq' & Eqf' & _).
        assert (S1 : Dict.get w (runs (snd (archive_run l now stA))) = None).
        { rewrite Er', Er. simpl.
          rewrite get_pop_ne by congruence. apply get_pop_eq. }
        assert (S2 : Dict.get (run_id rw')
                       (completed (snd (archive_run l now stA)))
                     = Some (close_run rw' w now)).
        { rewrite Ec', Ec. simpl.
          rewrite get_set_ne by congruence. apply get_set_eq. }
        assert (S3 : Dict.get l (runs (snd (archive_run l now stA))) = None).
        { rewrite Er'. apply get_pop_eq. }
        assert (S4 : Dict.get (run_id rl')
                       (completed (snd (archive_run l now stA)))
                     = Some (close_run rl' l now)).
        { rewrite Ec'. apply get_set_eq. }
        destruct (told l); cbn [fst snd]; auto 10.
      * cbn [fst snd]. split; [|split; [exact HlA | reflexivity]].
        split; [rewrite Er; apply get_pop_eq|].
        split; [exact Eq | rewrite Ec; apply get_set_eq].
    + split; [|split; [exact HlA | reflexivity]].
      split; [rewrite Er; apply get_pop_eq|].
      split; [exact Eq | rewrite Ec; apply get_set_eq].
  - destruct (MATCH_LIMIT <=? length (match_results rl'))%nat eqn:Cl;
      cbn [negb orb andb].
    + destruct (archive_run_present l now (set_runs tbl st) rl' Hl)
        as (Er' & Ec' & Eq' & _).
      assert (S1 : Dict.get w (runs (snd (archive_run l now (set_runs tbl st))))
                   = Some rw').
      { rewrite Er'. simpl. now rewrite get_pop_ne by congruence. }
      assert (S3 : Dict.get l (runs (snd (archive_run l now (set_runs tbl st))))
                   = None).
      { rewrite Er'. apply get_pop_eq. }
      assert (S4 : Dict.get (run_id rl')
                     (completed (snd (archive_run l now (set_runs tbl st))))
                   = Some (close_run rl' l now)).
      { rewrite Ec'. apply get_set_eq. }
      destruct (told l); cbn [fst snd]; auto 10.
    + cbn [fst snd]. simpl. auto.
Qed.

(** Every entry point, on two different players with runs, makes the two
    appends and saves; it then enters the completion loop, unless what it
    sends in between raised. *)
Lemma run_op_recorded net op now st r st' tbl :
  run_op net op now st = (r, st') -> r <> Ignored ->
  op_winner op <> op_loser op ->
  log_results (op_winner op) (op_loser op) (op_type op) (runs st) = Some tbl ->
  if op_announced net op
  then
    let out := auto_archive (op_told net op) tbl [op_winner op; op_loser op]
                 now (set_runs tbl st) in
    st' = snd out /\ succeeded r = fst out
  else st' = set_runs tbl st /\ succeeded r = false.
Proof.
  intros Hop Hr Hne Hlog.
  destruct op as [v|v|w l|w l]; cbn [run_op op_announced op_told] in *;
    cbn [op_winner op_loser op_type] in *.
  - unfold confirm in Hop. rewrite Z.eqb_refl in Hop. cbn [negb] in Hop.
    unfold process_results, record_phase, archive_phase in Hop.
    rewrite Hlog in Hop. injection Hop as <- <-.
    split; [reflexivity|]. now destruct (fst _).
  - unfold on_timeout in Hop.
    destruct (confirmed v); cbn [negb] in Hop;
      [injection Hop as <- _; congruence|].
    unfold process_results, record_phase, archive_phase in Hop.
    rewrite Hlog in Hop. injection Hop as <- <-.
    split; [reflexivity|]. now destruct (fst _).
  - destruct (log_results_some _ _ _ _ _ Hlog) as [Mw Ml].
    unfold resolve in Hop. rewrite Mw, Ml, Hlog in Hop. cbn [negb orb] in Hop.
    destruct (respond net); injection Hop as <- <-.
    + split; [reflexivity|]. now destruct (fst _).
    + split; reflexivity.
  - destruct (log_results_some _ _ _ _ _ Hlog) as [Mw Ml].
    apply Z.eqb_neq in Hne.
    unfold force_result in Hop.
    rewrite Mw, Ml, Hne, Hlog in Hop. cbn [negb orb] in Hop.
    unfold caught in Hop.
    change (op_told net (ForceResult w l))
      with (fun uid => notify net uid && respond net).
    destruct (respond net); injection Hop as <- <-.
    + split; [reflexivity|]. now destruct (fst _).
    + split; reflexivity.
Qed.

(** Where a recording call leaves the two runs, whatever their lengths and
    whatever Discord does with the notices. *)
Lemma run_op_settles net op now st r st' rw rl :
  run_op net op now st = (r, st') -> r <> Ignored ->
  op_winner op <> op_loser op ->
  Dict.get (op_winner op) (runs st) = Some rw ->
  Dict.get (op_loser op) (runs st) = Some rl ->
  run_id rw <> run_id rl ->
  let rw' := with_result rw (mk_match (op_loser op) W (op_type op)) in
  let rl' := with_result rl (mk_match (op_winner op) L (op_type op)) in
  (if op_announced net op then settled st' (op_winner op) rw' now
   else Dict.get (op_winner op) (runs st') = Some rw') /\
  (if reaches_loser net op rw' then settled st' (op_loser op) rl' now
   else Dict.get (op_loser op) (runs st') = Some rl') /\
  succeeded r = all_told net op rw' rl'.
Proof.
  intros Hop Hr Hne Hw Hl Hrid rw' rl'.
  destruct (log_results_both _ _ (op_type op) _ _ _ Hne Hw Hl)
    as (tbl & Hlog & Hw' & Hl' & _).
  pose proof (run_op_recorded _ _ _ _ _ _ _ Hop Hr Hne Hlog) as Hrec.
  unfold reaches_loser, all_told.
  destruct (op_announced net op); cbn [andb].
  - destruct Hrec as [-> ->].
    destruct (auto_archive_settles (op_told net op) _ _ tbl st now
                _ _ Hne Hw' Hl' Hrid) as (Sw & Sl & Sf).
    auto.
  - destruct Hrec as [-> ->]. auto.
Qed.




(** The same call with a notice that raises.  Players 1 and 2 both stand at
    two results and player 1 takes no direct messages: the confirmed result
    fills both runs, run 1 is archived, its notice raises, and run 2 stays
    among the active runs with [MATCH_LIMIT] results. *)
Lemma refused_notice_leaves_full_run_active :
  exists st' r,
    run_op closed_dms (QueueConfirm (ResultView 1 2 "queue")) noon both_at_two
      = (Undelivered, st') /\
    archived st' 1 "r1" /\
    Dict.get 2 (runs st') = Some r /\
    length (match_results r) = MATCH_LIMIT.
Proof.
  do 2 eexists. split; [vm_compute; reflexivity|].
  split.
  - split; [reflexivity|]. split; [reflexivity|].
    eexists. split; [vm_compute; reflexivity | reflexivity].
  - split; [vm_compute; reflexivity | reflexivity].
Qed.

(** ** The timeout of a reported result *)

(** C5 (amended).  When the 60 seconds elapse on a view nobody answered and
    both players have active runs, the reported winner is credited: one
    entry [W] against the loser is appended to the winner's results and one
    entry [L] against the winner to the loser's, each with the ["type"] of
    the view (["queue"] or ["local"]), and the view is marked as confirmed.
    The files and the view end up exactly as after a confirmation by the
    loser; that the result came from the timeout shows in the answer sent to
    the players only.  When every completion notice goes through the call
    ends normally and the view is stopped; otherwise the call ends with the
    notice that raised. *)
Theorem timeout_credits_reported_winner net v now st rw rl :
  confirmed v = false ->
  winner_id v <> loser_id v ->
  Dict.get (winner_id v) (runs st) = Some rw ->
  Dict.get (loser_id v) (runs st) = Some rl ->
  run_id rw <> run_id rl ->
  exists v' r st' rw' rl',
    on_timeout net v now st = (v', r, st') /\
    confirmed v' = true /\
    run_of st' (winner_id v) (run_id rw) = Some rw' /\
    match_results rw'
      = match_results rw ++ [mk_match (loser_id v) W (match_type v)] /\
    run_of st' (loser_id v) (run_id rl) = Some rl' /\
    match_results rl'
      = match_results rl ++ [mk_match (winner_id v) L (match_type v)] /\
    confirm net v (loser_id v) now st
      = (v', if succeeded r then Ok else r, st') /\
    (r = OkAuto /\ stopped v' = true \/
     r = Undelivered /\ stopped v' = stopped v) /\
    succeeded r
      = all_told net (TimeoutAutoConfirm v)
          (with_result rw (mk_match (loser_id v) W (match_type v)))
          (with_result rl (mk_match (winner_id v) L (match_type v))).
Proof.
  intros Hc Hne Hw Hl Hrid.
  destruct (log_results_both _ _ (match_type v) _ _ _ Hne Hw Hl)
    as (tbl & Hlog & Hw' & Hl' & _).
  destruct (auto_archive_settles (notify net) (winner_id v) (loser_id v)
              tbl st now _ _ Hne Hw' Hl' Hrid) as (Sw & Sl & Sf).
  set (out := auto_archive (notify net) tbl [winner_id v; loser_id v] now
                (set_runs tbl st)) in *.
  destruct (settled_run_of _ _ _ _ Sw) as (rw' & Rw & Mw & _).
  assert (Hl2 : exists rl',
             run_of (snd out) (loser_id v) (run_id rl) = Some rl' /\
             match_results rl'
             = match_results rl ++ [mk_match (winner_id v) L (match_type v)]).
  { destruct (negb _ || notify net (winner_id v)).
    - destruct (settled_run_of _ _ _ _ Sl) as (rl' & Rl & Ml & _). eauto.
    - eexists. unfold run_of. rewrite Sl. split; reflexivity. }
  destruct Hl2 as (rl' & Rl & Ml).
  exists (if fst out then stop (mark_confirmed v) else mark_confirmed v),
         (if fst out then OkAuto else Undelivered), (snd out), rw', rl'.
  unfold on_timeout, confirm, process_results, record_phase, archive_phase.
  rewrite Hc, Hlog, Z.eqb_refl.
  cbn [negb winner_id loser_id mark_confirmed].
  fold out. unfold all_told. cbn [op_announced op_told op_winner op_loser andb].
  rewrite <- Sf.
  destruct (fst out); cbn [succeeded confirmed stopped stop mark_confirmed];
    repeat split; auto.
Qed.

Lemma timeout_credits_reported_winner_witness :
  exists v' st' rw' rl',
    on_timeout online claimed_win (noon + 60) two_players
      = (v', OkAuto, st') /\
    Dict.get 1 (runs st') = Some rw' /\
    match_results rw' = [mk_match 2 W "queue"] /\
    Dict.get 2 (runs st') = Some rl' /\
    match_results rl' = [mk_match 1 L "queue"].
Proof.
  destruct (timeout_credits_reported_winner online claimed_win (noon + 60)
              two_players
              (plain_run "P" "aaaaaaaa" [] []) (plain_run "Q" "bbbbbbbb" [] [])
              eq_refl ltac:(discriminate) eq_refl eq_refl ltac:(discriminate))
    as (v' & r & st' & rw' & rl' & Ht & _ & Rw & Mw & Rl & Ml & _).
  exists v', st', rw', rl'.
  injection Ht as <- <- <-.
  repeat split; assumption.
Defined.

(** C5 (as stated, refuted).  Nothing in what the timeout records tells it
    from a confirmation: on the same view the two leave the same files, and
    the entry carries the type ["queue"] of the view. *)
Lemma timeout_entry_not_marked :
  snd (on_timeout online claimed_win (noon + 60) two_players)
    = snd (confirm online claimed_win 2 (noon + 60) two_players) /\
  exists r,
    Dict.get 1
      (runs (snd (on_timeout online claimed_win (noon + 60) two_players)))
      = Some r /\
    match_results r = [mk_match 2 W "queue"].
Proof.
  split; [reflexivity|].
  eexists. split; vm_compute; reflexivity.
Qed.

(** ** A second click on a reported result *)

(** The timer of a view that was confirmed or disputed changes nothing. *)
Lemma on_timeout_after_resolution net v now st :
  confirmed v = true -> on_timeout net v now st = (v, Ignored, st).
Proof. intros H. unfold on_timeout. now rewrite H. Qed.

(** A confirmation or a dispute that went through leaves the view marked
    and stopped. *)
Lemma confirm_marks_and_stops net v actor now st v' r st' :
  confirm net v actor now st = (v', r, st') -> succeeded r = true ->
  confirmed v' = true /\ stopped v' = true.
Proof.
  unfold confirm, process_results, record_phase, archive_phase.
  destruct (negb (actor =? loser_id v)); [intros [= <- <- <-]; discriminate|].
  destruct (log_results _ _ _ _); [|intros [= <- <- <-]; discriminate].
  destruct (fst _); intros [= <- <- <-]; [auto | discriminate].
Qed.

Lemma dispute_marks_and_stops net v actor st v' r st' d :
  dispute net v actor st = (v', r, st', d) -> r <> NotLoser ->
  confirmed v' = true /\ stopped v' = true /\ st' = st.
Proof.
  unfold dispute.
  destruct (negb (actor =? loser_id v)); [intros [= <- <- <- <-]; congruence|].
  destruct (respond net); cbn [negb]; [|intros [= <- <- <- <-]; auto].
  destruct (get_user net (winner_id v)); [destruct (dm net (winner_id v))|];
    destruct (get_channel net); try destruct (post net);
    intros [= <- <- <- <-]; auto.
Qed.

(** What reaches a stopped view is dropped. *)
Lemma view_dispatch_stopped net ev v now st :
  stopped v = true -> view_dispatch net ev v now st = (v, Ignored, st).
Proof. intros H. unfold view_dispatch. now rewrite H. Qed.

(** The callback behind the Confirm button looks at the actor only: on a
    view already marked it runs [process_results] again. *)
Lemma confirm_ignores_mark net v now st :
  snd (fst (confirm net (mark_confirmed v) (loser_id v) now st))
    = snd (fst (confirm net v (loser_id v) now st)) /\
  snd (confirm net (mark_confirmed v) (loser_id v) now st)
    = snd (confirm net v (loser_id v) now st).
Proof.
  unfold confirm, process_results, record_phase, archive_phase. simpl.
  rewrite Z.eqb_refl. simpl.
  destruct (log_results _ _ _ _); split; reflexivity.
Qed.

(** C4 (the code departs from the claim).  Player 2 presses Confirm on the
    win claimed by player 1.  [process_results] marks the view, appends and
    saves, and awaits the two notifications; [View.stop()] comes at its end.
    A second press of Confirm that arrives meanwhile finds a view that is
    marked but not stopped, is routed to [confirm], which does not look at
    the mark, and the result is appended a second time: one match, two
    entries in each run. *)
Theorem second_confirm_records_again :
  let now := noon + 30 in
  exists v1 tbl1 st1 v2 st2 v3 st3 rw rl,
    (* first click, up to the save *)
    record_phase claimed_win two_players = (v1, Some (tbl1, st1)) /\
    confirmed v1 = true /\ stopped v1 = false /\
    (* second click, delivered while the first awaits *)
    view_dispatch online (ClickConfirm 2) v1 now st1 = (v2, Ok, st2) /\
    (* the first click resumes *)
    archive_phase online v2 tbl1 now st2 = (v3, true, st3) /\
    Dict.get 1 (runs st3) = Some rw /\
    match_results rw = [mk_match 2 W "queue"; mk_match 2 W "queue"] /\
    opponents_played rw = [2; 2] /\
    Dict.get 2 (runs st3) = Some rl /\
    match_results rl = [mk_match 1 L "queue"; mk_match 1 L "queue"].
Proof.
  intros now. do 9 eexists.
  repeat split; vm_compute; reflexivity.
Qed.

(** ** Reactivation *)

(** What the two entry points do.  Both answer "not found" and change
    nothing when the id is not in the archive.  The administrator's command
    also changes nothing when the archived record names no owner or when its
    owner has an active run (it answers with the conflict), and otherwise
    makes the record, as it is in the archive, the owner's active run and
    removes it from the archive.  The approval of a player's request makes
    the record the requester's active run when the requester has none.  The
    moved record is unchanged: it keeps [ended_at] and [user_id], and a run
    is active or archived by the table that holds it. *)
Lemma reactivation_outcomes rid st :
  (Dict.get rid (completed st) = None ->
   reactivate_run rid st = (NotFound, st) /\
   forall uid, approve uid rid st = (NotFound, st)) /\
  (forall rd, Dict.get rid (completed st) = Some rd -> user_id rd = None ->
   reactivate_run rid st = (NoStoredUser, st)) /\
  (forall rd owner,
     Dict.get rid (completed st) = Some rd -> user_id rd = Some owner ->
     Dict.mem owner (runs st) = true ->
     reactivate_run rid st = (Conflict, st)) /\
  (forall rd owner,
     Dict.get rid (completed st) = Some rd -> user_id rd = Some owner ->
     Dict.mem owner (runs st) = false ->
     exists st',
       reactivate_run rid st = (Ok, st') /\
       Dict.get owner (runs st') = Some rd /\
       Dict.get rid (completed st') = None /\
       (forall c, c <> owner -> Dict.get c (runs st') = Dict.get c (runs st)) /\
       (forall k, k <> rid ->
                  Dict.get k (completed st') = Dict.get k (completed st)) /\
       player_queue st' = player_queue st /\ history st' = history st) /\
  (forall rd uid,
     Dict.get rid (completed st) = Some rd ->
     Dict.mem uid (runs st) = false ->
     exists st',
       approve uid rid st = (Ok, st') /\
       Dict.get uid (runs st') = Some rd /\
       Dict.get rid (completed st') = None /\
       (forall c, c <> uid -> Dict.get c (runs st') = Dict.get c (runs st)) /\
       (forall k, k <> rid ->
                  Dict.get k (completed st') = Dict.get k (completed st)) /\
       player_queue st' = player_queue st /\ history st' = history st).
Proof.
  unfold reactivate_run, approve.
  split; [intros ->; auto|].
  split; [intros rd -> ->; reflexivity|].
  split; [intros rd owner -> -> ->; reflexivity|].
  split.
  - intros rd owner -> -> ->. eexists. split; [reflexivity|]. simpl.
    split; [apply get_set_eq|]. split; [apply get_pop_eq|].
    split; [intros c Hc; now apply get_set_ne|].
    split; [intros k Hk; now apply get_pop_ne|]. auto.
  - intros rd uid -> _. eexists. split; [reflexivity|]. simpl.
    split; [apply get_set_eq|]. split; [apply get_pop_eq|].
    split; [intros c Hc; now apply get_set_ne|].
    split; [intros k Hk; now apply get_pop_ne|]. auto.
Qed.

(** The run that player 1 finished early comes back from the archive with
    its [ended_at] still set: no path clears it. *)
Lemma reactivated_run_keeps_ended_at :
  exists st' r,
    reactivate_run "aaaaaaaa" finished_early = (Ok, st') /\
    Dict.get 1 (runs st') = Some r /\
    ended_at r = Some (noon + 10) /\ ended_at r <> None.
Proof.
  do 2 eexists. split; [vm_compute; reflexivity|].
  split; [vm_compute; reflexivity|].
  split; [reflexivity | discriminate].
Qed.

(** C6 (the code departs from the claim).  Player 1 finishes a run early,
    registers a new one and asks for the first one back; the request reaches
    the administrators.  The owner of the archived run now has a different
    active run.  The administrator's command refuses at this point and
    changes nothing.  The approval of the request does not look at the
    requester's runs: it answers with success and puts the archived record
    in the place of the new run, which is then in neither table; the record
    still carries its [ended_at]. *)
Theorem approve_overwrites_active_run :
  let st := reactivated_after_restart in
  exists rd st0 st1 st' r,
    Dict.get 1 (runs st) = Some (plain_run "P" "ffffffff" [] []) /\
    Dict.get "aaaaaaaa"%string (completed st) = Some rd /\
    user_id rd = Some 1 /\
    on_message online
      (command_message 1 "P" "REQUEST_REACTIVATION" REQUEST_REACTIVATION)
      (noon + 30) "unused" st = (Ok, st0, NoView) /\
    on_message online (text_message 1 "P" "aaaaaaaa") (noon + 40) "unused" st0
      = (Ok, st1, SentApproval 1 "aaaaaaaa") /\
    runs st1 = runs st /\ completed st1 = completed st /\
    reactivate_run "aaaaaaaa" st1 = (Conflict, st1) /\
    approve 1 "aaaaaaaa" st1 = (Ok, st') /\
    runs st' = [(1, r)] /\ completed st' = [] /\
    run_id r = "aaaaaaaa"%string /\ r = rd /\
    ended_at r = Some (noon + 10).
Proof.
  intros st. do 5 eexists.
  split; [vm_compute; reflexivity|].
  split; [vm_compute; reflexivity|].
  split; [reflexivity|].
  split; [vm_compute; reflexivity|].
  split; [vm_compute; reflexivity|].
  split; [vm_compute; reflexivity|].
  split; [vm_compute; reflexivity|].
  split; [vm_compute; reflexivity|].
  split; [vm_compute; reflexivity|].
  split; [vm_compute; reflexivity|].
  split; [vm_compute; reflexivity|].
  repeat split.
Qed.

(** C7.  Archiving an active run and reactivating it by its id, through the
    administrator's command or through the approval of the owner's request,
    makes it the owner's active run again, out of the archive, with the
    [match_results], [opponents_played], [leader], [base] and [run_id] it
    had. *)
Theorem archive_then_reactivate uid now st r :
  Dict.get uid (runs st) = Some r ->
  exists st1 st2 r',
    archive_run uid now st = (Some (close_run r uid now), st1) /\
    reactivate_run (run_id r) st1 = (Ok, st2) /\
    approve uid (run_id r) st1 = (Ok, st2) /\
    Dict.get uid (runs st2) = Some r' /\
    Dict.get (run_id r) (completed st2) = None /\
    match_results r' = match_results r /\
    opponents_played r' = opponents_played r /\
    leader r' = leader r /\ base r' = base r /\ run_id r' = run_id r.
Proof.
  intros Hr.
  destruct (archive_run_present uid now st r Hr) as (Er & Ec & _).
  destruct (archive_run uid now st) as [o st1] eqn:Ha. simpl in Er, Ec.
  assert (Ho : o = Some (close_run r uid now)).
  { unfold archive_run in Ha. rewrite Hr in Ha. now injection Ha as <- _. }
  subst o.
  assert (Hc : Dict.get (run_id r) (completed st1)
               = Some (close_run r uid now)).
  { rewrite Ec. apply get_set_eq. }
  assert (Hm : Dict.mem uid (runs st1) = false).
  { rewrite Er. apply mem_pop_eq. }
  exists st1,
    (set_completed (Dict.pop (run_id r) (completed st1))
       (set_runs (Dict.set uid (close_run r uid now) (runs st1)) st1)),
    (close_run r uid now).
  unfold reactivate_run, approve. rewrite Hc. simpl. rewrite Hm.
  repeat split.
  - apply get_set_eq.
  - apply get_pop_eq.
Qed.

Lemma archive_then_reactivate_witness :
  exists st1 st2 r',
    archive_run 1 noon limit_scenario = (Some r', st1) /\
    reactivate_run "r1" st1 = (Ok, st2) /\
    Dict.get 1 (runs st2) = Some r' /\
    match_results r' = [mk_match 3 W "queue"; mk_match 4 L "queue"].
Proof.
  destruct (archive_then_reactivate 1 noon limit_scenario
              (plain_run "one" "r1" [3; 4]
                 [mk_match 3 W "queue"; mk_match 4 L "queue"]) eq_refl)
    as (st1 & st2 & r' & Ha & Hre & _ & Hg & _ & Hm & _).
  exists st1, st2, r'.
  assert (E : r' = close_run (plain_run "one" "r1" [3; 4]
                 [mk_match 3 W "queue"; mk_match 4 L "queue"]) 1 noon).
  { unfold archive_run in Ha. simpl in Ha. injection Ha as <-.
    unfold reactivate_run in Hre. simpl in Hre. injection Hre as <-.
    simpl in Hg. now injection Hg as <-. }
  rewrite <- E in Ha.
  repeat split; assumption.
Defined.

(** ** Opponents met twice *)

(** The report of a local match refuses an opponent already met. *)
Lemma manual_report_refuses_repeat net m start now st r opp_id :
  older_than 300 now start = false ->
  as_int m = Some opp_id -> opp_id <> author m ->
  Dict.mem opp_id (runs st) = true ->
  Dict.get (author m) (runs st) = Some r ->
  In opp_id (opponents_played r) ->
  manual_report_branch net m start now st = (AlreadyPlayed, st, NoView).
Proof.
  intros Ho Hi Hne Hm Hr Hin. unfold manual_report_branch.
  rewrite Ho, Hi. apply Z.eqb_neq in Hne. rewrite Hne, Hm, Hr. simpl.
  apply played_In in Hin. now rewrite Hin.
Qed.

(** The queue never pairs a player behind an opponent that player met. *)
Lemma scan_queue_new_opponent tbl uids a b r :
  scan_queue tbl uids = Pair a b -> Dict.get a tbl = Some r ->
  ~ In b (opponents_played r).
Proof.
  intros Hs Hr.
  destruct (scan_queue_pair _ _ _ _ Hs) as (_ & _ & _ & _ & _ & (r' & Hr' & Hn) & _).
  congruence.
Qed.

(** The check of the queue is one-sided: player 2, who has met player 1, is
    paired behind player 1's new run, and the confirmed result puts player 1
    in player 2's [opponents_played] a second time. *)
Lemma queue_check_one_sided :
  let st := run_events us_pacific online rematch_setup empty_store in
  exists st1 v st2 r,
    on_message online (command_message 2 "Q" "ENTER_QUEUE" ENTER_QUEUE)
      (noon + 70) "unused" st = (Ok, st1, SentMatchReport 1 2) /\
    confirm online (win_claim 1 2 1) 2 (noon + 80) st1 = (v, Ok, st2) /\
    Dict.get 2 (runs st2) = Some r /\ opponents_played r = [1; 1].
Proof.
  intros st. do 4 eexists.
  split; [vm_compute; reflexivity|].
  split; [vm_compute; reflexivity|].
  split; [vm_compute; reflexivity | reflexivity].
Qed.

(** C8 (the code departs from the claim).  [force_result] checks that both
    players have runs and differ, not that they have met: forcing the same
    result twice puts player 2 twice in player 1's [opponents_played] (and
    player 1 twice in player 2's).  The report of a local match between the
    same two players is refused at that point. *)
Theorem force_result_repeats_opponent :
  exists st1 st2 r1 r2,
    force_result online 1 2 (noon + 30) two_players = (Ok, st1) /\
    force_result online 1 2 (noon + 40) st1 = (Ok, st2) /\
    Dict.get 1 (runs st2) = Some r1 /\ opponents_played r1 = [2; 2] /\
    ~ NoDup (opponents_played r1) /\
    Dict.get 2 (runs st2) = Some r2 /\ opponents_played r2 = [1; 1] /\
    manual_report_branch online (id_message 1 "P" "2" 2) (noon + 35)
      (noon + 40) st1
      = (AlreadyPlayed, st1, NoView).
Proof.
  do 4 eexists.
  split; [vm_compute; reflexivity|].
  split; [vm_compute; reflexivity|].
  split; [vm_compute; reflexivity|].
  split; [reflexivity|].
  split.
  - simpl. intros H. inversion H as [|x l Hn _]; subst. apply Hn. now left.
  - split; [vm_compute; reflexivity|].
    split; [reflexivity | vm_compute; reflexivity].
Qed.

(** ** Queued players and their runs *)

(** Entering the queue takes an active run. *)
Lemma enter_queue_needs_run net m now st :
  as_command m = Some ENTER_QUEUE ->
  Dict.mem (author m) (runs st) = false ->
  command_branch net m now st = (NoActiveRun, st, NoView).
Proof. intros Hc Hr. unfold command_branch. now rewrite Hc, Hr. Qed.

(** [archive_run] takes the player out of the queue. *)
Lemma archive_run_dequeues uid now st :
  Dict.mem uid (runs st) = true ->
  Dict.mem uid (runs (snd (archive_run uid now st))) = false /\
  Dict.mem uid (player_queue (snd (archive_run uid now st))) = false.
Proof.
  intros Hm. apply mem_true in Hm. destruct Hm as [r Hr].
  destruct (archive_run_present uid now st r Hr) as (Er & _ & Eq & _).
  split; [rewrite Er; apply mem_pop_eq | exact Eq].
Qed.

(** So does [cancel_run]. *)
Lemma cancel_run_dequeues uid st :
  Dict.mem uid (runs st) = true ->
  fst (cancel_run uid st) = Ok /\
  Dict.mem uid (runs (snd (cancel_run uid st))) = false /\
  Dict.mem uid (player_queue (snd (cancel_run uid st))) = false.
Proof.
  intros Hm. unfold cancel_run. rewrite Hm. simpl.
  destruct (Dict.mem uid (player_queue st)) eqn:Hq; simpl;
    destruct (Dict.mem uid (history st)); simpl;
    rewrite ?mem_pop_eq, ?Hq; auto.
Qed.

(** C9 (the code departs from the claim).  [delete_run] on the id of an
    active run removes the run and leaves the queue alone: player 1, who
    registered and entered the queue, is still queued and has no active run.
    [cancel_run] at the same point takes the player out of the queue. *)
Theorem delete_run_leaves_player_queued :
  let st := run_events us_pacific online queued_then_deleted empty_store in
  let st' := run_events us_pacific online queued_then_cancelled empty_store in
  Dict.mem 1 (player_queue st) = true /\ Dict.mem 1 (runs st) = false /\
  Dict.mem 1 (player_queue st') = false /\ Dict.mem 1 (runs st') = false.
Proof. repeat split; vm_compute; reflexivity. Qed.

(** ** The resolution of a dispute *)

(** [resolve] on two different players with runs: both results are saved;
    when the administrator was answered, the winner's run is archived if
    full, and the loser's as well when the loop gets to it; the call ends
    normally when every send went through. *)
Lemma resolve_records net winner loser now st rw rl :
  Dict.get winner (runs st) = Some rw ->
  Dict.get loser (runs st) = Some rl ->
  winner <> loser -> run_id rw <> run_id rl ->
  let rw' := with_result rw (mk_match loser W "admin_dispute") in
  let rl' := with_result rl (mk_match winner L "admin_dispute") in
  exists r st',
    resolve net winner loser now st = (r, st') /\
    (if respond net then settled st' winner rw' now
     else Dict.get winner (runs st') = Some rw') /\
    (if respond net && (negb (full rw') || notify net winner)
     then settled st' loser rl' now
     else Dict.get loser (runs st') = Some rl') /\
    r = (if respond net
            && (negb (full rw') || notify net winner)
            && (negb (full rl') || notify net loser)
         then Ok else Undelivered).
Proof.
  intros Hw Hl Hne Hrid rw' rl'.
  destruct (resolve net winner loser now st) as [r st'] eqn:Hres.
  assert (Hr : r = Ok \/ r = Undelivered).
  { destruct (log_results_both _ _ "admin_dispute"%string _ _ _ Hne Hw Hl)
      as (tbl & Hlog & _).
    unfold resolve in Hres.
    rewrite (mem_get _ _ _ Hw), (mem_get _ _ _ Hl), Hlog in Hres.
    cbn [negb orb] in Hres.
    destruct (respond net); [destruct (fst _)|]; injection Hres as <- <-; auto. }
  assert (Hi : r <> Ignored) by (destruct Hr as [-> | ->]; discriminate).
  destruct (run_op_settles net (DisputeResolution winner loser) now st r st'
              rw rl Hres Hi Hne Hw Hl Hrid) as (Sw & Sl & Sf).
  exists r, st'. split; [reflexivity|].
  split; [exact Sw|]. split; [exact Sl|].
  change (succeeded r
          = respond net
            && (negb (full rw') || notify net winner)
            && (negb (full rl') || notify net loser)) in Sf.
  rewrite <- Sf.
  destruct Hr as [-> | ->]; reflexivity.
Qed.

(** C10.  [resolve] answers with an error and changes nothing when the
    chosen winner or the chosen loser has no active run; it never raises a
    [KeyError] (the one exception that can leave it is a send that raised,
    after both results were saved); whenever it gets past the check both
    players had active runs; and then both runs received their entry (of
    type ["admin_dispute"]) and each is archived if full, provided the
    completion loop got to it. *)
Theorem resolve_all_or_nothing net winner loser now st :
  (Dict.mem winner (runs st) = false \/ Dict.mem loser (runs st) = false ->
   resolve net winner loser now st = (NoActiveRun, st)) /\
  (fst (resolve net winner loser now st) = Ok \/
   fst (resolve net winner loser now st) = Undelivered \/
   resolve net winner loser now st = (NoActiveRun, st)) /\
  (forall r st', resolve net winner loser now st = (r, st') ->
     r <> NoActiveRun ->
     Dict.mem winner (runs st) = true /\ Dict.mem loser (runs st) = true) /\
  (forall rw rl,
     Dict.get winner (runs st) = Some rw ->
     Dict.get loser (runs st) = Some rl ->
     winner <> loser -> run_id rw <> run_id rl ->
     let rw' := with_result rw (mk_match loser W "admin_dispute") in
     let rl' := with_result rl (mk_match winner L "admin_dispute") in
     exists r st',
       resolve net winner loser now st = (r, st') /\
       (if respond net then settled st' winner rw' now
        else Dict.get winner (runs st') = Some rw') /\
       (if respond net && (negb (full rw') || notify net winner)
        then settled st' loser rl' now
        else Dict.get loser (runs st') = Some rl') /\
       r = (if respond net
               && (negb (full rw') || notify net winner)
               && (negb (full rl') || notify net loser)
            then Ok else Undelivered)).
Proof.
  assert (H123 :
    (Dict.mem winner (runs st) = false \/ Dict.mem loser (runs st) = false ->
     resolve net winner loser now st = (NoActiveRun, st)) /\
    (fst (resolve net winner loser now st) = Ok \/
     fst (resolve net winner loser now st) = Undelivered \/
     resolve net winner loser now st = (NoActiveRun, st)) /\
    (forall r st', resolve net winner loser now st = (r, st') ->
       r <> NoActiveRun ->
       Dict.mem winner (runs st) = true /\
       Dict.mem loser (runs st) = true)).
  { unfold resolve.
    destruct (Dict.mem winner (runs st)) eqn:Hw;
      destruct (Dict.mem loser (runs st)) eqn:Hl; cbn [negb orb].
    2-4: (split; [auto|]; split; [auto|];
          intros r st' [= <- <-] Hn; congruence).
    apply mem_true in Hw, Hl. destruct Hw as [rw Hw], Hl as [rl Hl].
    assert (Hsome : exists tbl,
               log_results winner loser "admin_dispute" (runs st) = Some tbl).
    { unfold log_results, add_result. rewrite Hw.
      destruct (Z.eq_dec loser winner) as [->|Hne].
      - rewrite get_set_eq. eauto.
      - rewrite get_set_ne by congruence. rewrite Hl. eauto. }
    destruct Hsome as [tbl Htbl]. rewrite Htbl.
    split; [intros [H|H]; discriminate|].
    split; [destruct (respond net); cbn [fst]; [destruct (fst _)|]; auto|].
    auto. }
  destruct H123 as (H1 & H2 & H3).
  split; [exact H1|]. split; [exact H2|]. split; [exact H3|].
  exact (resolve_records net winner loser now st).
Qed.

Lemma resolve_all_or_nothing_witness :
  resolve online 1 9 noon two_players = (NoActiveRun, two_players) /\
  Dict.mem 1 (runs two_players) = true /\
  exists st', resolve online 2 1 noon two_players = (Ok, st').
Proof.
  split.
  - exact (proj1 (resolve_all_or_nothing online 1 9 noon two_players)
             (or_intror eq_refl)).
  - split; [reflexivity|].
    destruct (proj2 (proj2 (proj2
                (resolve_all_or_nothing online 2 1 noon two_players)))
                _ _ eq_refl eq_refl ltac:(discriminate) ltac:(discriminate))
      as (r & st' & H & _ & _ & Hr).
    exists st'. rewrite H. now rewrite Hr.
Defined.

(** * Further properties of the program *)

(** ** More on dictionaries *)

Section DictKept.
Context {K V : Type} {HK : EqDec K}.
Implicit Types (k : K) (v : V) (d : dict K V).

Lemma In_set_inv k v d x : In x (Dict.set k v d) -> x = (k, v) \/ In x d.
Proof.
  induction d as [|[k0 v0] d IH]; simpl.
  - intros [H|[]]; auto.
  - destruct (eq_dec k k0); simpl; intros [H|H]; auto.
    destruct (IH H); auto.
Qed.

Lemma In_pop_inv k d x : In x (Dict.pop k d) -> In x d /\ fst x <> k.
Proof.
  induction d as [|[k0 v0] d IH]; simpl; [tauto|].
  destruct (eq_dec k k0) as [E|N]; simpl.
  - intros H. destruct (IH H). auto.
  - intros [<-|H]; [simpl; split; auto|]. destruct (IH H). auto.
Qed.

Lemma get_key_In k v d : Dict.get k d = Some v -> In (k, v) d.
Proof.
  induction d as [|[k0 v0] d IH]; simpl; [discriminate|].
  destruct (eq_dec k k0) as [->|N]; intros H.
  - left. congruence.
  - right. auto.
Qed.

Lemma every_value_set (P : V -> Prop) k v d :
  every_value P d -> P v -> every_value P (Dict.set k v d).
Proof.
  unfold every_value. rewrite !Forall_forall. intros Hd Hv x Hx.
  destruct (In_set_inv _ _ _ _ Hx) as [->|H]; auto.
Qed.

Lemma every_value_pop (P : V -> Prop) k d :
  every_value P d -> every_value P (Dict.pop k d).
Proof.
  unfold every_value. rewrite !Forall_forall. intros Hd x Hx.
  apply Hd. now apply In_pop_inv in Hx.
Qed.

Lemma every_value_get (P : V -> Prop) k v d :
  every_value P d -> Dict.get k d = Some v -> P v.
Proof.
  unfold every_value. rewrite Forall_forall. intros Hd Hg.
  apply (Hd (k, v)). now apply get_key_In.
Qed.

Lemma every_entry_set (P : K -> V -> Prop) k v d :
  every_entry P d -> P k v -> every_entry P (Dict.set k v d).
Proof.
  unfold every_entry. rewrite !Forall_forall. intros Hd Hv x Hx.
  destruct (In_set_inv _ _ _ _ Hx) as [->|H]; auto.
Qed.

Lemma every_entry_pop (P : K -> V -> Prop) k d :
  every_entry P d -> every_entry P (Dict.pop k d).
Proof.
  unfold every_entry. rewrite !Forall_forall. intros Hd x Hx.
  apply Hd. now apply In_pop_inv in Hx.
Qed.

Lemma every_entry_get (P : K -> V -> Prop) k v d :
  every_entry P d -> Dict.get k d = Some v -> P k v.
Proof.
  unfold every_entry. rewrite Forall_forall. intros Hd Hg.
  apply (Hd (k, v)). now apply get_key_In.
Qed.

Lemma In_keys_set k k' v d :
  In k' (Dict.keys (Dict.set k v d)) -> k' = k \/ In k' (Dict.keys d).
Proof.
  unfold Dict.keys. rewrite !in_map_iff. intros (x & <- & Hx).
  destruct (In_set_inv _ _ _ _ Hx) as [->|H]; [now left|].
  right. now exists x.
Qed.

Lemma In_keys_pop k k' d :
  In k' (Dict.keys (Dict.pop k d)) -> In k' (Dict.keys d) /\ k' <> k.
Proof.
  unfold Dict.keys. rewrite !in_map_iff. intros (x & <- & Hx).
  destruct (In_pop_inv _ _ _ Hx). split; [now exists x | assumption].
Qed.

Lemma unique_keys_set k v d :
  unique_keys d -> unique_keys (Dict.set k v d).
Proof.
  unfold unique_keys. induction d as [|[k0 v0] d IH]; simpl.
  - intros _. repeat constructor. intros [].
  - intros Hn. inversion Hn as [|? ? Hk0 Hd]; subst.
    destruct (eq_dec k k0) as [->|N]; simpl.
    + now constructor.
    + constructor; [|auto].
      intros Hin. destruct (In_keys_set _ _ _ _ Hin); congruence.
Qed.

Lemma unique_keys_pop k d : unique_keys d -> unique_keys (Dict.pop k d).
Proof.
  unfold unique_keys. induction d as [|[k0 v0] d IH]; simpl; auto.
  intros Hn. inversion Hn as [|? ? Hk0 Hd]; subst.
  destruct (eq_dec k k0) as [->|N]; simpl; auto.
  constructor; [|auto].
  intros Hin. now destruct (In_keys_pop _ _ _ Hin).
Qed.

(** With unique keys an entry of the list is what [get] returns. *)
Lemma In_get_unique k v d :
  unique_keys d -> In (k, v) d -> Dict.get k d = Some v.
Proof.
  unfold unique_keys. induction d as [|[k0 v0] d IH]; simpl; [tauto|].
  intros Hn. inversion Hn as [|? ? Hk0 Hd]; subst.
  intros [[= -> ->]|Hin].
  - destruct (eq_dec k k); congruence.
  - destruct (eq_dec k k0) as [->|N]; [|auto].
    exfalso. apply Hk0. unfold Dict.keys. apply in_map_iff.
    now exists (k0, v).
Qed.

Lemma pop_absent k d : Dict.get k d = None -> Dict.pop k d = d.
Proof.
  induction d as [|[k0 v0] d IH]; simpl; auto.
  destruct (eq_dec k k0); [discriminate|]. intros H. now rewrite IH.
Qed.

End DictKept.

(** ** The housekeeping loops *)

Lemma pop_as_filter (k : user_id_t) (d : dict user_id_t instant) :
  Dict.pop k d = filter (fun kv => negb (fst kv =? k)) d.
Proof.
  induction d as [|[k0 v0] d IH]; simpl; auto.
  unfold eq_dec, Z_EqDec.
  destruct (Z.eq_dec k k0) as [->|N].
  - rewrite Z.eqb_refl. simpl. exact IH.
  - assert (E : (k0 =? k) = false) by (apply Z.eqb_neq; congruence).
    rewrite E. simpl. f_equal. exact IH.
Qed.

Lemma filter_filter {A} (f g : A -> bool) l :
  filter f (filter g l) = filter (fun x => g x && f x) l.
Proof.
  induction l as [|x l IH]; simpl; auto.
  destruct (g x); simpl; [destruct (f x)|]; now rewrite IH.
Qed.

Lemma fold_pop_as_filter ks (d : dict user_id_t instant) :
  fold_left (fun acc uid => Dict.pop uid acc) ks d
  = filter (fun kv => negb (existsb (Z.eqb (fst kv)) ks)) d.
Proof.
  revert d. induction ks as [|k ks IH]; intros d; simpl.
  - induction d as [|x d IHd]; simpl; [reflexivity | now rewrite <- IHd].
  - rewrite IH, pop_as_filter, filter_filter.
    apply filter_ext. intros kv. now rewrite negb_orb.
Qed.

(** With unique keys the sweep keeps exactly the entries that are not older
    than the limit, in their order. *)
Lemma sweep_as_filter limit_s now (d : dict user_id_t instant) :
  unique_keys d ->
  sweep limit_s now d
  = filter (fun kv => negb (older_than limit_s now (snd kv))) d.
Proof.
  intros Hu. unfold sweep. rewrite fold_pop_as_filter.
  apply filter_ext_in. intros [k t] Hin. simpl. f_equal.
  destruct (older_than limit_s now t) eqn:Ho.
  - apply existsb_exists. exists k. split; [|apply Z.eqb_refl].
    unfold Dict.keys. apply in_map_iff. exists (k, t). split; [reflexivity|].
    apply filter_In. auto.
  - apply not_true_is_false. intros Hex.
    apply existsb_exists in Hex. destruct Hex as (k' & Hk' & E).
    apply Z.eqb_eq in E. subst k'.
    unfold Dict.keys in Hk'. apply in_map_iff in Hk'.
    destruct Hk' as ([k1 t1] & E1 & Hf). simpl in E1. subst k1.
    apply filter_In in Hf. destruct Hf as [Hin1 Ho1]. simpl in Ho1.
    assert (t1 = t).
    { apply (In_get_unique _ _ _ Hu) in Hin.
      apply (In_get_unique _ _ _ Hu) in Hin1. congruence. }
    congruence.
Qed.

Lemma unique_keys_filter {V} (f : user_id_t * V -> bool)
    (d : dict user_id_t V) :
  unique_keys d -> unique_keys (filter f d).
Proof.
  unfold unique_keys, Dict.keys. induction d as [|x d IH]; simpl; auto.
  intros Hn. inversion Hn as [|? ? Hx Hd]; subst.
  destruct (f x); simpl; auto.
  constructor; auto.
  intros Hin. apply Hx. apply in_map_iff in Hin.
  destruct Hin as (y & Ey & Hy). apply filter_In in Hy.
  apply in_map_iff. exists y. tauto.
Qed.

Lemma unique_keys_sweep limit_s now (d : dict user_id_t instant) :
  unique_keys d -> unique_keys (sweep limit_s now d).
Proof.
  intros Hu. rewrite sweep_as_filter by assumption.
  now apply unique_keys_filter.
Qed.

Lemma get_filter_unique (f : user_id_t * instant -> bool)
    (d : dict user_id_t instant) k :
  unique_keys d ->
  Dict.get k (filter f d)
  = match Dict.get k d with
    | Some t => if f (k, t) then Some t else None
    | None => None
    end.
Proof.
  unfold unique_keys. induction d as [|[k0 t0] d IH]; simpl; auto.
  intros Hn. inversion Hn as [|? ? Hk0 Hd]; subst.
  unfold eq_dec, Z_EqDec in *.
  destruct (Z.eq_dec k k0) as [->|N].
  - destruct (f (k0, t0)) eqn:Hf; simpl.
    + unfold eq_dec, Z_EqDec. destruct (Z.eq_dec k0 k0); congruence.
    + rewrite IH by assumption.
      destruct (Dict.get k0 d) as [t|] eqn:Hg; auto.
      exfalso. apply Hk0. apply get_key_In in Hg.
      unfold Dict.keys. apply in_map_iff. now exists (k0, t).
  - destruct (f (k0, t0)); simpl; [|now apply IH].
    unfold eq_dec, Z_EqDec. destruct (Z.eq_dec k k0); [congruence|].
    now apply IH.
Qed.

(** ** What every reachable store satisfies *)

Lemma aligned_with_result r e : aligned r -> aligned (with_result r e).
Proof.
  unfold aligned. simpl. intros ->. now rewrite map_app.
Qed.

Lemma aligned_close_run r uid now : aligned r -> aligned (close_run r uid now).
Proof. exact (fun H => H). Qed.

Lemma filed_close_run r uid now : filed (run_id r) (close_run r uid now).
Proof. unfold filed. simpl. repeat split; discriminate. Qed.

Ltac open_kept :=
  repeat match goal with
  | H : well_kept _ |- _ =>
      destruct H as (? & ? & ? & ? & ? & ? & ? & ? & ?)
  end.

Ltac show_kept :=
  unfold well_kept;
  cbn [fst snd runs completed history player_queue pending_deck_links
       pending_manual_reports pending_reactivations
       set_runs set_completed set_history set_queue set_pending_deck
       set_pending_manual set_pending_react];
  repeat match goal with
  | |- context [run_id (close_run ?r ?u ?n)] =>
      change (run_id (close_run r u n)) with (run_id r)
  end;
  repeat split;
  eauto 6 using every_value_set, every_value_pop, every_entry_set,
    every_entry_pop, unique_keys_set, unique_keys_pop, unique_keys_sweep,
    aligned_close_run, filed_close_run.

Lemma archive_run_kept uid now st :
  well_kept st -> well_kept (snd (archive_run uid now st)).
Proof.
  intros Hk. unfold archive_run.
  destruct (Dict.get uid (runs st)) as [r|] eqn:Hr; [|exact Hk].
  open_kept.
  assert (aligned r)
    by (apply (every_value_get aligned uid r (runs st)); assumption).
  cbn [snd].
  destruct (Dict.mem uid _); show_kept.
Qed.

Lemma add_result_kept uid e tbl tbl' :
  add_result uid e tbl = Some tbl' ->
  every_value aligned tbl -> unique_keys tbl ->
  every_value aligned tbl' /\ unique_keys tbl'.
Proof.
  unfold add_result. destruct (Dict.get uid tbl) as [d|] eqn:Hd; [|discriminate].
  intros [= <-] Ha Hu. split.
  - apply every_value_set; [assumption|].
    apply aligned_with_result.
    apply (every_value_get aligned uid d tbl); assumption.
  - now apply unique_keys_set.
Qed.

Lemma log_results_kept w l ty tbl tbl' :
  log_results w l ty tbl = Some tbl' ->
  every_value aligned tbl -> unique_keys tbl ->
  every_value aligned tbl' /\ unique_keys tbl'.
Proof.
  unfold log_results.
  destruct (add_result w _ tbl) as [tbl1|] eqn:H1; [|discriminate].
  intros H2 Ha Hu.
  destruct (add_result_kept _ _ _ _ H1 Ha Hu) as [Ha1 Hu1].
  exact (add_result_kept _ _ _ _ H2 Ha1 Hu1).
Qed.

Lemma auto_archive_kept told tbl uids now st :
  well_kept st -> well_kept (snd (auto_archive told tbl uids now st)).
Proof.
  revert st. induction uids as [|uid rest IH]; intros st Hk; simpl; auto.
  destruct (run_complete tbl uid); [|now apply IH].
  destruct (told uid); [apply IH|]; now apply archive_run_kept.
Qed.

Lemma set_runs_kept tbl st :
  well_kept st -> every_value aligned tbl -> unique_keys tbl ->
  well_kept (set_runs tbl st).
Proof. intros Hk Ha Hu. open_kept. show_kept. Qed.

Lemma saved_kept w l ty tbl st :
  well_kept st -> log_results w l ty (runs st) = Some tbl ->
  well_kept (set_runs tbl st).
Proof.
  intros Hk Hl. assert (Hk' := Hk). open_kept.
  destruct (log_results_kept _ _ _ _ _ Hl) as [Ha Hu]; auto.
  now apply set_runs_kept.
Qed.

Lemma recorded_kept told w l ty tbl uids now st :
  well_kept st -> log_results w l ty (runs st) = Some tbl ->
  well_kept (snd (auto_archive told tbl uids now (set_runs tbl st))).
Proof.
  intros Hk Hl. apply auto_archive_kept. eapply saved_kept; eassumption.
Qed.

Lemma process_results_kept net v is_auto now st :
  well_kept st -> well_kept (snd (process_results net v is_auto now st)).
Proof.
  intros Hk. unfold process_results, record_phase, archive_phase.
  destruct (log_results _ _ _ _) as [tbl|] eqn:Hl; [|exact Hk].
  cbn [snd]. eapply recorded_kept; eassumption.
Qed.

Lemma view_callback_kept net ev v now st :
  well_kept st -> well_kept (snd (view_callback net ev v now st)).
Proof.
  intros Hk. destruct ev as [actor|actor|]; simpl.
  - unfold confirm. destruct (negb _); [exact Hk|].
    now apply process_results_kept.
  - unfold dispute. destruct (negb _); [exact Hk|].
    destruct (negb _); [exact Hk|].
    destruct (get_user net _); [destruct (dm net _)|];
      destruct (get_channel net); try destruct (post net); exact Hk.
  - unfold on_timeout. destruct (negb _); [|exact Hk].
    now apply process_results_kept.
Qed.

Lemma resolve_kept net w l now st :
  well_kept st -> well_kept (snd (resolve net w l now st)).
Proof.
  intros Hk. unfold resolve. destruct (negb _ || negb _); [exact Hk|].
  destruct (log_results _ _ _ _) as [tbl|] eqn:Hl; [|exact Hk].
  destruct (respond net); cbn [snd].
  - eapply recorded_kept; eassumption.
  - eapply saved_kept; eassumption.
Qed.

Lemma force_result_kept net w l now st :
  well_kept st -> well_kept (snd (force_result net w l now st)).
Proof.
  intros Hk. unfold force_result. destruct (negb _ || negb _); [exact Hk|].
  destruct (w =? l); [exact Hk|].
  destruct (log_results _ _ _ _) as [tbl|] eqn:Hl; [|exact Hk].
  destruct (respond net); cbn [snd].
  - eapply recorded_kept; eassumption.
  - eapply saved_kept; eassumption.
Qed.

Lemma start_run_kept tz uid now st :
  well_kept st -> well_kept (snd (start_run tz uid now st)).
Proof.
  intros Hk. unfold start_run.
  destruct (Dict.mem uid (runs st)); [exact Hk|].
  destruct (negb _); [exact Hk|].
  open_kept. show_kept.
Qed.

Lemma cancel_run_kept uid st :
  well_kept st -> well_kept (snd (cancel_run uid st)).
Proof.
  intros Hk. unfold cancel_run. destruct (negb _); [exact Hk|].
  open_kept. cbn [snd].
  destruct (Dict.mem uid (player_queue _));
    destruct (Dict.mem uid (history _)); show_kept.
Qed.

Lemma reactivate_run_kept rid st :
  well_kept st -> well_kept (snd (reactivate_run rid st)).
Proof.
  intros Hk. unfold reactivate_run.
  destruct (Dict.get rid (completed st)) as [rd|] eqn:Hr; [|exact Hk].
  destruct (user_id rd); [|exact Hk].
  destruct (Dict.mem _ _); [exact Hk|].
  open_kept.
  assert (aligned rd)
    by (apply (every_value_get aligned rid rd (completed st)); assumption).
  show_kept.
Qed.

Lemma approve_kept uid rid st :
  well_kept st -> well_kept (snd (approve uid rid st)).
Proof.
  intros Hk. unfold approve.
  destruct (Dict.get rid (completed st)) as [rd|] eqn:Hr; [|exact Hk].
  open_kept.
  assert (aligned rd)
    by (apply (every_value_get aligned rid rd (completed st)); assumption).
  show_kept.
Qed.

Lemma delete_run_kept rid st :
  well_kept st -> well_kept (snd (delete_run rid st)).
Proof.
  intros Hk. unfold delete_run.
  destruct (Dict.mem rid (completed st)).
  - open_kept. show_kept.
  - destruct (find _ _) as [[uid r]|]; [|exact Hk].
    open_kept. show_kept.
Qed.

Lemma check_for_match_kept net st :
  well_kept st -> well_kept (snd (check_for_match net st)).
Proof.
  intros Hk. unfold check_for_match.
  destruct (scan_queue _ _) as [a b| |]; try exact Hk.
  open_kept.
  destruct (get_user net a && get_user net b && Dict.mem b (runs st));
    [destruct (dm net a); [destruct (dm net b)|]|]; show_kept.
Qed.

Lemma join_queue_logic_kept net uid now st :
  well_kept st -> well_kept (snd (join_queue_logic net uid now st)).
Proof.
  intros Hk. unfold join_queue_logic. apply check_for_match_kept.
  open_kept. show_kept.
Qed.

Lemma log_new_run_timestamp_kept uid now st :
  well_kept st -> well_kept (log_new_run_timestamp uid now st).
Proof.
  intros Hk. unfold log_new_run_timestamp. open_kept.
  assert (Forall (fun ts => tzoffset ts = Some 0)
            (match Dict.get uid (history st) with
             | Some l => l | None => [] end ++ [mk_stamp now (Some 0)])).
  { apply Forall_app. split; [|repeat constructor].
    destruct (Dict.get uid (history st)) as [l|] eqn:Hh; [|constructor].
    apply (every_value_get (Forall (fun ts => tzoffset ts = Some 0))
             uid l (history st)); assumption. }
  show_kept.
Qed.

Lemma expiry_sweep_kept uid now st st' :
  expiry_sweep uid now st = Some st' -> well_kept st -> well_kept st'.
Proof.
  unfold expiry_sweep. intros He Hk. open_kept.
  destruct (Dict.get uid (pending_deck_links st)) as [s|];
    [destruct (older_than 600 now s)|];
    try (injection He as <-; show_kept);
    destruct (Dict.get uid (pending_reactivations st)) as [s'|];
    try discriminate;
    destruct (older_than 600 now s'); try discriminate;
    injection He as <-; show_kept.
Qed.

Lemma manual_report_branch_kept net m start now st :
  well_kept st ->
  well_kept (snd (fst (manual_report_branch net m start now st))).
Proof.
  intros Hk. unfold manual_report_branch. open_kept.
  destruct (older_than 300 now start); [show_kept|].
  destruct (as_int m) as [opp_id|]; [|show_kept].
  destruct (opp_id =? author m); [show_kept|].
  destruct (negb _); [show_kept|].
  destruct (Dict.get (author m) (runs st)) as [r|]; [|show_kept].
  destruct (played _ _); [show_kept|].
  destruct (negb (respond net)); [show_kept|].
  destruct (get_user net opp_id); [destruct (dm net opp_id)|]; show_kept.
Qed.

Lemma deck_branch_kept m start now fresh st :
  well_kept st -> well_kept (snd (fst (deck_branch m start now fresh st))).
Proof.
  intros Hk. unfold deck_branch.
  destruct (older_than 600 now start); [open_kept; show_kept|].
  destruct (as_deck m) as [ln bn].
  destruct (string_neqb ln _ && string_neqb bn _); [|exact Hk].
  cbn [fst snd].
  set (st1 := set_runs _ st).
  assert (H1 : well_kept st1).
  { subst st1. open_kept. show_kept.
    apply every_value_set; [assumption | reflexivity]. }
  assert (H2 := log_new_run_timestamp_kept (author m) now st1 H1).
  revert H2. generalize (log_new_run_timestamp (author m) now st1).
  intros st2 H2. open_kept. show_kept.
Qed.

Lemma reactivation_branch_kept net m now st :
  well_kept st -> well_kept (snd (fst (reactivation_branch net m now st))).
Proof.
  intros Hk. unfold reactivation_branch. open_kept.
  destruct (Dict.get _ (pending_reactivations st)) as [s|]; [|show_kept].
  destruct (older_than 600 now s); [show_kept|].
  destruct (negb _); [show_kept|].
  destruct (get_channel net); [destruct (post net)|]; show_kept.
Qed.

Lemma command_branch_kept net m now st :
  well_kept st -> well_kept (snd (fst (command_branch net m now st))).
Proof.
  intros Hk. unfold command_branch.
  destruct (as_command m) as [[]|];
    try apply reactivation_branch_kept; try exact Hk; auto.
  - destruct (negb _); [exact Hk|]. open_kept. show_kept.
  - pose proof (archive_run_kept (author m) now st Hk) as Ha.
    destruct (archive_run (author m) now st) as [[r|] st']; exact Ha.
  - destruct (Dict.mem _ (player_queue st));
      [open_kept; show_kept | now apply reactivation_branch_kept].
  - destruct (negb _); exact Hk.
  - open_kept. show_kept.
  - destruct (Dict.mem _ (runs st)); [|exact Hk].
    destruct (Dict.mem _ (player_queue st)); [exact Hk|].
    pose proof (join_queue_logic_kept net (author m) now st Hk) as Hj.
    destruct (join_queue_logic net (author m) now st) as [o st']. exact Hj.
Qed.

Lemma on_message_kept net m now fresh st :
  well_kept st -> well_kept (snd (fst (on_message net m now fresh st))).
Proof.
  intros Hk. unfold on_message.
  destruct (expiry_sweep _ now st) as [st'|] eqn:He.
  - eapply expiry_sweep_kept; eassumption.
  - destruct (Dict.get _ (pending_manual_reports st)) as [s|];
      [now apply manual_report_branch_kept|].
    destruct (Dict.get _ (pending_deck_links st)) as [s|];
      [now apply deck_branch_kept | now apply command_branch_kept].
Qed.

Lemma queue_cleanup_kept now st :
  well_kept st -> well_kept (queue_cleanup now st).
Proof. intros Hk. unfold queue_cleanup. open_kept. show_kept. Qed.

Lemma passive_timeout_cleanup_kept now st :
  well_kept st -> well_kept (passive_timeout_cleanup now st).
Proof. intros Hk. unfold passive_timeout_cleanup. open_kept. show_kept. Qed.

Lemma step_kept tz net now ev st :
  well_kept st -> well_kept (step tz net now ev st).
Proof.
  intros Hk. destruct ev; simpl.
  - now apply start_run_kept.
  - now apply on_message_kept.
  - now apply force_result_kept.
  - now apply resolve_kept.
  - now apply cancel_run_kept.
  - now apply reactivate_run_kept.
  - now apply delete_run_kept.
  - now apply approve_kept.
Qed.

Lemma empty_store_kept : well_kept empty_store.
Proof. unfold well_kept, every_value, every_entry, unique_keys. simpl.
  repeat split; constructor. Qed.

Lemma reachable_well_kept tz st : reachable tz st -> well_kept st.
Proof.
  induction 1 as [|net now ev st _ IH|net ev v now st _ IH
                  |v st v1 tbl st1 _ IH Hr
                  |uid now st _ IH|now st _ IH|now st _ IH].
  - exact empty_store_kept.
  - now apply step_kept.
  - now apply view_callback_kept.
  - unfold record_phase in Hr.
    destruct (log_results _ _ _ _) as [tbl'|] eqn:Hl; [|discriminate].
    injection Hr as _ <- <-.
    assert (Hk := IH). open_kept.
    destruct (log_results_kept _ _ _ _ _ Hl) as [Ha Hu]; auto.
    now apply set_runs_kept.
  - now apply archive_run_kept.
  - now apply queue_cleanup_kept.
  - now apply passive_timeout_cleanup_kept.
Qed.

Lemma run_events_reachable tz net evs st :
  reachable tz st -> reachable tz (run_events tz net evs st).
Proof.
  revert st. induction evs as [|[now ev] evs IH]; intros st Hr; simpl; auto.
  apply IH. now constructor.
Qed.

(** X1.  In every store the program reaches from empty files, each run,
    active or archived, lists its opponents in the order of its results:
    [opponents_played] is the list of the ["opp"] fields of
    [match_results], and the two have the same length. *)
Theorem reachable_opponents_match_results tz st :
  reachable tz st ->
  forall r,
    (exists uid, Dict.get uid (runs st) = Some r) \/
    (exists rid, Dict.get rid (completed st) = Some r) ->
    opponents_played r = map opp (match_results r) /\
    length (opponents_played r) = length (match_results r).
Proof.
  intros Hr r Hin. apply reachable_well_kept in Hr.
  destruct Hr as (Ha & Hc & _).
  assert (H : aligned r).
  { destruct Hin as [[uid Hg]|[rid Hg]].
    - exact (every_value_get aligned uid r (runs st) Ha Hg).
    - exact (every_value_get aligned rid r (completed st) Hc Hg). }
  split; [exact H|]. rewrite H. apply length_map.
Qed.

Lemma reachable_opponents_match_results_witness :
  let st := run_events us_pacific online reactivated_full_run empty_store in
  reachable us_pacific st /\
  forall r,
    (exists uid, Dict.get uid (runs st) = Some r) \/
    (exists rid, Dict.get rid (completed st) = Some r) ->
    opponents_played r = map opp (match_results r) /\
    length (opponents_played r) = length (match_results r).
Proof.
  intros st.
  assert (Hr : reachable us_pacific st)
    by (apply run_events_reachable; constructor).
  split; [exact Hr|].
  exact (reachable_opponents_match_results us_pacific st Hr).
Defined.

(** X2.  In every reachable store an archived record sits under its own
    [run_id] and carries the owner and the end that [archive_run] wrote;
    so [reactivate_run] never answers that the stored user id is missing:
    it finds no such run, reports the conflict, or reactivates. *)
Theorem reachable_archive_names_owner tz st rid :
  reachable tz st ->
  (forall r, Dict.get rid (completed st) = Some r ->
     run_id r = rid /\
     (exists owner, user_id r = Some owner) /\
     (exists t, ended_at r = Some t)) /\
  (fst (reactivate_run rid st) = Ok \/
   reactivate_run rid st = (NotFound, st) \/
   reactivate_run rid st = (Conflict, st)).
Proof.
  intros Hr. apply reachable_well_kept in Hr.
  destruct Hr as (_ & _ & Hf & _).
  assert (H : forall r, Dict.get rid (completed st) = Some r ->
     run_id r = rid /\
     (exists owner, user_id r = Some owner) /\
     (exists t, ended_at r = Some t)).
  { intros r Hg.
    destruct (every_entry_get filed rid r (completed st) Hf Hg)
      as (H1 & H2 & H3).
    split; [exact H1|]. split.
    - destruct (user_id r) as [o|]; [eauto | congruence].
    - destruct (ended_at r) as [t|]; [eauto | congruence]. }
  split; [exact H|].
  unfold reactivate_run.
  destruct (Dict.get rid (completed st)) as [r|] eqn:Hg; [|auto].
  destruct (H r eq_refl) as (_ & (owner & ->) & _).
  destruct (Dict.mem owner (runs st)); auto.
Qed.

Lemma reachable_archive_names_owner_witness :
  reachable us_pacific finished_early /\
  (fst (reactivate_run "aaaaaaaa" finished_early) = Ok \/
   reactivate_run "aaaaaaaa" finished_early = (NotFound, finished_early) \/
   reactivate_run "aaaaaaaa" finished_early = (Conflict, finished_early)).
Proof.
  assert (Hr : reachable us_pacific finished_early)
    by (apply run_events_reachable; constructor).
  split; [exact Hr|].
  exact (proj2 (reachable_archive_names_owner us_pacific finished_early
                  "aaaaaaaa" Hr)).
Defined.

(** X3.  Every timestamp the program has stored carries the offset
    [+00:00]: on data it wrote itself [can_start_run] never takes the branch
    for naive timestamps, and the instant it compares is the stored wall
    clock. *)
Theorem reachable_history_is_utc tz st uid l ts :
  reachable tz st ->
  Dict.get uid (history st) = Some l -> In ts l ->
  tzoffset ts = Some 0 /\ run_time ts = wall ts.
Proof.
  intros Hr Hg Hin. apply reachable_well_kept in Hr.
  destruct Hr as (_ & _ & _ & Hh & _).
  pose proof (every_value_get _ uid l (history st) Hh Hg) as Hl.
  rewrite Forall_forall in Hl. specialize (Hl ts Hin).
  split; [exact Hl|]. unfold run_time. rewrite Hl. lia.
Qed.

Lemma reachable_history_is_utc_witness :
  reachable us_pacific two_players /\
  Dict.get 1 (history two_players) = Some [mk_stamp (noon + 1) (Some 0)] /\
  run_time (mk_stamp (noon + 1) (Some 0)) = wall (mk_stamp (noon + 1) (Some 0)).
Proof.
  assert (Hr : reachable us_pacific two_players)
    by (apply run_events_reachable; constructor).
  assert (Hg : Dict.get 1 (history two_players)
               = Some [mk_stamp (noon + 1) (Some 0)])
    by (vm_compute; reflexivity).
  split; [exact Hr|]. split; [exact Hg|].
  exact (proj2 (reachable_history_is_utc us_pacific two_players 1
                  [mk_stamp (noon + 1) (Some 0)]
                  (mk_stamp (noon + 1) (Some 0)) Hr Hg
                  (or_introl eq_refl))).
Defined.

(** X4.  [queue_cleanup] removes from the queue exactly the players who
    have waited more than 60 minutes and keeps the others with their join
    times and in their order; it touches neither the active runs nor the
    archive (a removed player keeps the run), and running it again at the
    same instant changes nothing. *)
Theorem queue_cleanup_drops_stale now st :
  unique_keys (player_queue st) ->
  player_queue (queue_cleanup now st)
    = filter (fun kv => negb (older_than 3600 now (snd kv)))
             (player_queue st) /\
  (forall uid,
     Dict.get uid (player_queue (queue_cleanup now st))
     = match Dict.get uid (player_queue st) with
       | Some t => if older_than 3600 now t then None else Some t
       | None => None
       end) /\
  runs (queue_cleanup now st) = runs st /\
  completed (queue_cleanup now st) = completed st /\
  queue_cleanup now (queue_cleanup now st) = queue_cleanup now st.
Proof.
  intros Hu. unfold queue_cleanup.
  cbn [player_queue runs completed set_queue].
  rewrite (sweep_as_filter 3600 now _ Hu).
  split; [reflexivity|]. split.
  - intros uid. rewrite get_filter_unique by assumption.
    destruct (Dict.get uid (player_queue st)) as [t|]; [|reflexivity].
    simpl. destruct (older_than 3600 now t); reflexivity.
  - split; [reflexivity|]. split; [reflexivity|].
    set (kept := filter _ (player_queue st)).
    assert (E : sweep 3600 now kept = kept).
    { subst kept. rewrite sweep_as_filter by now apply unique_keys_filter.
      rewrite filter_filter. apply filter_ext. intros kv.
      destruct (older_than 3600 now (snd kv)); reflexivity. }
    rewrite E. reflexivity.
Qed.

Lemma queue_cleanup_drops_stale_witness :
  unique_keys (player_queue stale_queue) /\
  player_queue (queue_cleanup hour_later stale_queue)
    = [(2, noon + 3600 * usec_per_second)] /\
  runs (queue_cleanup hour_later stale_queue) = runs stale_queue.
Proof.
  assert (Hu : unique_keys (player_queue stale_queue)).
  { unfold unique_keys. simpl. repeat constructor; simpl; intuition lia. }
  split; [exact Hu|].
  destruct (queue_cleanup_drops_stale hour_later stale_queue Hu)
    as (H1 & _ & H3 & _).
  split; [rewrite H1; vm_compute; reflexivity | exact H3].
Defined.

Lemma sweep_get limit_s now (d : dict user_id_t instant) uid :
  unique_keys d ->
  Dict.get uid (sweep limit_s now d)
  = match Dict.get uid d with
    | Some t => if older_than limit_s now t then None else Some t
    | None => None
    end.
Proof.
  intros Hu. rewrite sweep_as_filter, get_filter_unique by assumption.
  destruct (Dict.get uid d) as [t|]; [|reflexivity].
  simpl. destruct (older_than limit_s now t); reflexivity.
Qed.

(** X5.  After [passive_timeout_cleanup] no deck registration and no
    reactivation request older than 600 seconds is pending, so a message
    that arrives at that instant is never answered with the expiry notice of
    [on_message]'s opening loop; the flows that are not older stay, and
    runs, archive and queue are untouched. *)
Theorem passive_cleanup_leaves_no_expired now st uid :
  unique_keys (pending_deck_links st) ->
  unique_keys (pending_reactivations st) ->
  let st' := passive_timeout_cleanup now st in
  expiry_sweep uid now st' = None /\
  (forall t, Dict.get uid (pending_deck_links st) = Some t ->
             older_than 600 now t = false ->
             Dict.get uid (pending_deck_links st') = Some t) /\
  (forall t, Dict.get uid (pending_reactivations st) = Some t ->
             older_than 600 now t = false ->
             Dict.get uid (pending_reactivations st') = Some t) /\
  runs st' = runs st /\ completed st' = completed st /\
  player_queue st' = player_queue st.
Proof.
  intros Hd Hr st'. subst st'. unfold passive_timeout_cleanup.
  cbn [runs completed player_queue pending_deck_links pending_reactivations
       set_pending_deck set_pending_react].
  split.
  - unfold expiry_sweep.
    cbn [pending_deck_links pending_reactivations
         set_pending_deck set_pending_react].
    rewrite !sweep_get by assumption.
    destruct (Dict.get uid (pending_deck_links st)) as [t|];
      [destruct (older_than 600 now t) eqn:Ht; [|rewrite Ht]|];
      destruct (Dict.get uid (pending_reactivations st)) as [t'|];
      try reflexivity;
      destruct (older_than 600 now t') eqn:Ht'; try rewrite Ht';
      reflexivity.
  - split; [|split; [|auto]].
    + intros t Hg Ho. rewrite sweep_get, Hg, Ho by assumption. reflexivity.
    + intros t Hg Ho. rewrite sweep_get, Hg, Ho by assumption. reflexivity.
Qed.

Lemma passive_cleanup_leaves_no_expired_witness :
  unique_keys (pending_deck_links stale_flows) /\
  unique_keys (pending_reactivations stale_flows) /\
  expiry_sweep 1 hour_later stale_flows <> None /\
  expiry_sweep 1 hour_later (passive_timeout_cleanup hour_later stale_flows)
    = None.
Proof.
  assert (H1 : unique_keys (pending_deck_links stale_flows)).
  { unfold unique_keys. simpl. repeat constructor. intros []. }
  assert (H2 : unique_keys (pending_reactivations stale_flows)).
  { unfold unique_keys. simpl. repeat constructor. intros []. }
  split; [exact H1|]. split; [exact H2|].
  split; [vm_compute; discriminate|].
  exact (proj1 (passive_cleanup_leaves_no_expired hour_later stale_flows 1
                  H1 H2)).
Defined.

(** ** More on matchmaking *)

Lemma keys_mem {V} (k : user_id_t) (d : dict user_id_t V) :
  In k (Dict.keys d) -> Dict.mem k d = true.
Proof.
  unfold Dict.keys, Dict.mem. induction d as [|[k0 v0] d IH]; simpl; [tauto|].
  unfold eq_dec, Z_EqDec. destruct (Z.eq_dec k k0); [reflexivity|].
  intros [H|H]; [congruence | auto].
Qed.

Lemma sorted_queue_keys q k :
  In k (Dict.keys (sorted_queue q)) -> In k (Dict.keys q).
Proof.
  unfold Dict.keys.
  apply Permutation_in, Permutation_map, sorted_queue_perm.
Qed.

Lemma scan_queue_no_key_error tbl uids :
  (forall u, In u uids -> Dict.mem u tbl = true) ->
  scan_queue tbl uids <> ScanKeyError.
Proof.
  induction uids as [|a rest IH]; simpl; [discriminate|].
  intros Hall. destruct rest as [|b rest']; [discriminate|].
  destruct (Dict.get a tbl) as [r|] eqn:Hg.
  - destruct (find _ _); [discriminate|].
    apply IH. intros u Hu. apply Hall. now right.
  - specialize (Hall a (or_introl eq_refl)).
    apply mem_true in Hall. destruct Hall as [v Hv]. congruence.
Qed.

(** X6.  When every queued player has an active run, [check_for_match]
    raises no [KeyError]: either no pair of the queue is admissible and the
    store stays as it is, or a pair of queued players is chosen and both
    leave the queue.  The match is announced to both exactly when
    [bot.get_user] finds both and both take the direct message; otherwise
    the call raises after the two have left the queue, before anybody was
    told (a player not found, the first message refused) or with the first
    player told and the second not. *)
Theorem check_for_match_finds_any_pair net st :
  (forall uid, Dict.mem uid (player_queue st) = true ->
               Dict.mem uid (runs st) = true) ->
  (check_for_match net st = (NoMatch, st) /\
   no_admissible_pair (runs st)
     (Dict.keys (sorted_queue (player_queue st)))) \/
  (exists a b,
     Dict.mem a (player_queue st) = true /\
     Dict.mem b (player_queue st) = true /\
     snd (check_for_match net st)
       = set_queue (Dict.pop b (Dict.pop a (player_queue st))) st /\
     fst (check_for_match net st)
       = (if get_user net a && get_user net b
          then
            if dm net a
            then if dm net b then MatchFound a b else MatchHalfTold a b
            else MatchUntold a b
          else MatchAborted a b) /\
     (fst (check_for_match net st) = MatchFound a b <->
      get_user net a = true /\ get_user net b = true /\
      dm net a = true /\ dm net b = true)).
Proof.
  intros Hall. unfold check_for_match.
  set (uids := Dict.keys (sorted_queue (player_queue st))).
  assert (Hq : forall u, In u uids -> Dict.mem u (player_queue st) = true).
  { intros u Hu. apply keys_mem, sorted_queue_keys, Hu. }
  destruct (scan_queue (runs st) uids) as [a b| |] eqn:Hs.
  - right. exists a, b.
    destruct (scan_queue_pair _ _ _ _ Hs) as (i & j & _ & Hi & Hj & _).
    apply nth_error_In in Hi, Hj.
    rewrite (Hall b (Hq b Hj)), andb_true_r.
    split; [exact (Hq a Hi)|]. split; [exact (Hq b Hj)|].
    destruct (get_user net a), (get_user net b), (dm net a), (dm net b);
      cbn [andb fst snd]; repeat split; try reflexivity;
      try discriminate; intros (? & ? & ? & ?); discriminate.
  - left. split; [reflexivity | now apply scan_queue_nopair].
  - exfalso. apply (scan_queue_no_key_error (runs st) uids); [|exact Hs].
    intros u Hu. apply Hall, Hq, Hu.
Qed.

Lemma check_for_match_finds_any_pair_witness :
  (forall uid, Dict.mem uid (player_queue queue_scenario) = true ->
               Dict.mem uid (runs queue_scenario) = true) /\
  ((check_for_match closed_dms queue_scenario = (NoMatch, queue_scenario) /\
    no_admissible_pair (runs queue_scenario)
      (Dict.keys (sorted_queue (player_queue queue_scenario)))) \/
   (exists a b,
      Dict.mem a (player_queue queue_scenario) = true /\
      Dict.mem b (player_queue queue_scenario) = true /\
      snd (check_for_match closed_dms queue_scenario)
        = set_queue (Dict.pop b (Dict.pop a (player_queue queue_scenario)))
            queue_scenario /\
      fst (check_for_match closed_dms queue_scenario)
        = (if get_user closed_dms a && get_user closed_dms b
           then
             if dm closed_dms a
             then if dm closed_dms b then MatchFound a b
                  else MatchHalfTold a b
             else MatchUntold a b
           else MatchAborted a b) /\
      (fst (check_for_match closed_dms queue_scenario) = MatchFound a b <->
       get_user closed_dms a = true /\ get_user closed_dms b = true /\
       dm closed_dms a = true /\ dm closed_dms b = true))) /\
  check_for_match closed_dms queue_scenario
    = (MatchUntold 1 3, set_queue [(2, 20)] queue_scenario).
Proof.
  assert (H : forall uid, Dict.mem uid (player_queue queue_scenario) = true ->
                          Dict.mem uid (runs queue_scenario) = true).
  { intros uid. unfold Dict.mem. simpl. unfold eq_dec, Z_EqDec.
    destruct (Z.eq_dec uid 3) as [->|]; [reflexivity|].
    destruct (Z.eq_dec uid 1) as [->|]; [reflexivity|].
    destruct (Z.eq_dec uid 2) as [->|]; [reflexivity | discriminate]. }
  split; [exact H|].
  split; [exact (check_for_match_finds_any_pair closed_dms queue_scenario H)
         | reflexivity].
Defined.

Lemma sorted_nth {A} (R : A -> A -> Prop) l :
  StronglySorted R l ->
  forall (i j : nat) x y,
    (i < j)%nat -> nth_error l i = Some x -> nth_error l j = Some y -> R x y.
Proof.
  induction 1 as [|a l Hs IH Hall]; intros i j x y Hij Hi Hj.
  - destruct i; discriminate.
  - destruct j as [|j]; [lia|]. simpl in Hj.
    destruct i as [|i]; simpl in Hi.
    + injection Hi as <-. rewrite Forall_forall in Hall.
      apply Hall. eapply nth_error_In; eassumption.
    + apply (IH i j); [lia | assumption | assumption].
Qed.

Lemma nth_error_keys {V} (d : dict user_id_t V) i k :
  nth_error (Dict.keys d) i = Some k ->
  exists v, nth_error d i = Some (k, v).
Proof.
  unfold Dict.keys. rewrite nth_error_map.
  destruct (nth_error d i) as [[k0 v0]|]; simpl; [|discriminate].
  intros [= <-]. now exists v0.
Qed.

(** X7.  The two players of a match are different, and the first one has
    been waiting at least as long as the second: the pair is taken in the
    order of the join times. *)
Theorem match_takes_longer_wait_first net st a b st' :
  unique_keys (player_queue st) ->
  check_for_match net st = (MatchFound a b, st') ->
  a <> b /\
  exists ta tb,
    Dict.get a (player_queue st) = Some ta /\
    Dict.get b (player_queue st) = Some tb /\ ta <= tb.
Proof.
  intros Hu Hc.
  pose proof (sorted_queue_perm (player_queue st)) as Hp.
  pose proof (sorted_queue_sorted (player_queue st)) as Hs.
  assert (Hpair : first_admissible_pair (runs st)
                    (Dict.keys (sorted_queue (player_queue st))) a b).
  { unfold check_for_match in Hc.
    destruct (scan_queue _ _) as [a' b'| |] eqn:Hscan; try discriminate.
    apply scan_queue_pair.
    destruct (get_user net a' && get_user net b' && Dict.mem b' (runs st));
      [|discriminate].
    destruct (dm net a'); [|discriminate].
    destruct (dm net b'); [|discriminate].
    injection Hc as <- <- _. exact Hscan. }
  destruct Hpair as (i & j & Hij & Hi & Hj & _).
  destruct (nth_error_keys _ _ _ Hi) as (ta & Hia).
  destruct (nth_error_keys _ _ _ Hj) as (tb & Hjb).
  assert (Hle : ta <= tb) by exact (sorted_nth _ _ Hs i j _ _ Hij Hia Hjb).
  assert (Hga : Dict.get a (player_queue st) = Some ta).
  { apply In_get_unique; [assumption|].
    eapply Permutation_in; [exact Hp|]. eapply nth_error_In; eassumption. }
  assert (Hgb : Dict.get b (player_queue st) = Some tb).
  { apply In_get_unique; [assumption|].
    eapply Permutation_in; [exact Hp|]. eapply nth_error_In; eassumption. }
  split; [|now exists ta, tb].
  intros ->.
  assert (Hn : NoDup (Dict.keys (sorted_queue (player_queue st)))).
  { unfold Dict.keys. eapply Permutation_NoDup; [|exact Hu].
    apply Permutation_map. symmetry. apply sorted_queue_perm. }
  rewrite NoDup_nth_error in Hn.
  assert (i = j).
  { apply Hn; [|congruence].
    apply nth_error_Some. congruence. }
  lia.
Qed.

Lemma match_takes_longer_wait_first_witness :
  unique_keys (player_queue queue_scenario) /\
  check_for_match online queue_scenario
    = (MatchFound 1 3, set_queue [(2, 20)] queue_scenario) /\
  1 <> 3 /\
  exists ta tb,
    Dict.get 1 (player_queue queue_scenario) = Some ta /\
    Dict.get 3 (player_queue queue_scenario) = Some tb /\ ta <= tb.
Proof.
  assert (Hu : unique_keys (player_queue queue_scenario)).
  { unfold unique_keys. simpl. repeat constructor; simpl; intuition lia. }
  split; [exact Hu|]. split; [reflexivity|].
  exact (match_takes_longer_wait_first online queue_scenario 1 3
           (set_queue [(2, 20)] queue_scenario) Hu eq_refl).
Defined.

(** ** Starting runs *)

(** X8.  The button of the league channel: a player with an active run is
    told so, whatever the daily count; otherwise a player with
    [MAX_RUNS_PER_DAY] or more stored starts after the cutoff is refused;
    both answers leave the store as it is.  Any other player is asked for a
    deck, and the only change is the time of the click in
    [pending_deck_links] (a second click restarts the 600 seconds). *)
Theorem start_run_applies_daily_limit tz uid now st :
  (Dict.mem uid (runs st) = true ->
   start_run tz uid now st = (AlreadyActive, st)) /\
  (Dict.mem uid (runs st) = false ->
   (MAX_RUNS_PER_DAY
    <= starts_after (get_last_3am_pacific tz now) uid st)%nat ->
   start_run tz uid now st = (LimitReached, st)) /\
  (Dict.mem uid (runs st) = false ->
   (starts_after (get_last_3am_pacific tz now) uid st
    < MAX_RUNS_PER_DAY)%nat ->
   exists st',
     start_run tz uid now st = (Ok, st') /\
     Dict.get uid (pending_deck_links st') = Some now /\
     (forall c, c <> uid -> Dict.get c (pending_deck_links st')
                            = Dict.get c (pending_deck_links st)) /\
     runs st' = runs st /\ completed st' = completed st /\
     history st' = history st /\ player_queue st' = player_queue st).
Proof.
  unfold start_run. split; [intros ->; reflexivity|]. split.
  - intros -> Hn.
    destruct (can_start_run tz now uid st) eqn:Hc; [|reflexivity].
    apply can_start_run_counts in Hc. lia.
  - intros -> Hn. apply can_start_run_counts in Hn. rewrite Hn. simpl.
    eexists. split; [reflexivity|]. simpl.
    split; [apply get_set_eq|].
    split; [intros c Hc; now apply get_set_ne | auto].
Qed.

Lemma start_run_applies_daily_limit_witness :
  let now := 1730548800 * usec_per_second in
  Dict.mem 7 (runs fallback_history) = false /\
  (MAX_RUNS_PER_DAY
   <= starts_after (get_last_3am_pacific us_pacific now) 7%Z
        fallback_history)%nat /\
  start_run us_pacific 7 now fallback_history
    = (LimitReached, fallback_history).
Proof.
  intros now.
  assert (Hn : (MAX_RUNS_PER_DAY
     <= starts_after (get_last_3am_pacific us_pacific now) 7%Z
          fallback_history)%nat) by (vm_compute; lia).
  split; [reflexivity|]. split; [exact Hn|].
  exact (proj1 (proj2 (start_run_applies_daily_limit us_pacific 7
                         now fallback_history)) eq_refl Hn).
Defined.

Lemma starts_after_log a uid c now st :
  starts_after a c (log_new_run_timestamp uid now st)
  = if Z.eq_dec c uid
    then (starts_after a c st + (if (a <? now)%Z then 1 else 0))%nat
    else starts_after a c st.
Proof.
  unfold starts_after, log_new_run_timestamp. simpl.
  destruct (Z.eq_dec c uid) as [->|N].
  - rewrite get_set_eq.
    destruct (Dict.get uid (history st)) as [l|]; simpl.
    + rewrite filter_app, length_app. simpl. unfold run_time. simpl.
      rewrite Z.sub_0_r. destruct (a <? now); reflexivity.
    + unfold run_time. simpl. rewrite Z.sub_0_r.
      destruct (a <? now); reflexivity.
  - now rewrite get_set_ne.
Qed.

(** What the handlers other than the deck message and [cancel_run] do to
    the history: nothing. *)
Lemma archive_run_history uid now st :
  history (snd (archive_run uid now st)) = history st.
Proof.
  unfold archive_run. destruct (Dict.get uid (runs st)); [|reflexivity].
  simpl. destruct (Dict.mem uid (player_queue st)); reflexivity.
Qed.

Lemma auto_archive_history told tbl uids now st :
  history (snd (auto_archive told tbl uids now st)) = history st.
Proof.
  revert st. induction uids as [|u rest IH]; intros st; simpl; auto.
  destruct (run_complete tbl u); [|apply IH].
  destruct (told u); [rewrite IH|]; apply archive_run_history.
Qed.

Lemma check_for_match_history net st :
  history (snd (check_for_match net st)) = history st.
Proof.
  unfold check_for_match. destruct (scan_queue _ _) as [a b| |]; auto.
  destruct (get_user net a && get_user net b && Dict.mem b (runs st));
    [destruct (dm net a); [destruct (dm net b)|]|]; reflexivity.
Qed.

Lemma expiry_sweep_history uid now st st' :
  expiry_sweep uid now st = Some st' -> history st' = history st.
Proof.
  unfold expiry_sweep.
  destruct (Dict.get uid (pending_deck_links st)) as [s|];
    [destruct (older_than 600 now s)|];
    try (intros [= <-]; reflexivity);
    destruct (Dict.get uid (pending_reactivations st)) as [s'|];
    try discriminate;
    destruct (older_than 600 now s'); try discriminate;
    intros [= <-]; reflexivity.
Qed.

Lemma command_branch_history net m now st :
  history (snd (fst (command_branch net m now st))) = history st.
Proof.
  assert (Hr : history (snd (fst (reactivation_branch net m now st)))
               = history st).
  { unfold reactivation_branch.
    destruct (Dict.get _ (pending_reactivations st)) as [s|]; [|reflexivity].
    destruct (older_than 600 now s); [reflexivity|].
    destruct (negb _); [reflexivity|].
    destruct (get_channel net); [destruct (post net)|]; reflexivity. }
  unfold command_branch.
  destruct (as_command m) as [[]|]; try exact Hr; try reflexivity.
  - destruct (negb _); reflexivity.
  - pose proof (archive_run_history (author m) now st) as Ha.
    destruct (archive_run (author m) now st) as [[r|] st']; exact Ha.
  - destruct (Dict.mem _ (player_queue st)); [reflexivity | exact Hr].
  - destruct (negb _); reflexivity.
  - destruct (Dict.mem _ (runs st)); [|reflexivity].
    destruct (Dict.mem _ (player_queue st)); [reflexivity|].
    unfold join_queue_logic.
    pose proof (check_for_match_history net
                  (set_queue (Dict.set (author m) now (player_queue st)) st))
      as Hc.
    destruct (check_for_match net _) as [o st']. exact Hc.
Qed.

Lemma manual_report_branch_history net m start now st :
  history (snd (fst (manual_report_branch net m start now st))) = history st.
Proof.
  unfold manual_report_branch.
  destruct (older_than 300 now start); [reflexivity|].
  destruct (as_int m) as [opp_id|]; [|reflexivity].
  destruct (opp_id =? author m); [reflexivity|].
  destruct (negb _); [reflexivity|].
  destruct (Dict.get (author m) (runs st)) as [r|]; [|reflexivity].
  destruct (played _ _); [reflexivity|].
  destruct (negb (respond net)); [reflexivity|].
  destruct (get_user net opp_id); [destruct (dm net opp_id)|]; reflexivity.
Qed.

Lemma on_message_history net m now fresh st :
  let st' := snd (fst (on_message net m now fresh st)) in
  history st' = history st \/
  history st' = history (log_new_run_timestamp (author m) now st).
Proof.
  unfold on_message.
  destruct (expiry_sweep _ now st) as [st1|] eqn:He.
  - left. simpl. eapply expiry_sweep_history; eassumption.
  - destruct (Dict.get _ (pending_manual_reports st)) as [s|].
    + left. apply manual_report_branch_history.
    + destruct (Dict.get _ (pending_deck_links st)) as [s|].
      * unfold deck_branch.
        destruct (older_than 600 now s); [left; reflexivity|].
        destruct (as_deck m) as [ln bn].
        destruct (string_neqb ln _ && string_neqb bn _);
          [right | left]; reflexivity.
      * left. apply command_branch_history.
Qed.

Lemma starts_after_ext a uid st st' :
  history st' = history st -> starts_after a uid st' = starts_after a uid st.
Proof. unfold starts_after. now intros ->. Qed.

Lemma resolve_history net w l now st :
  history (snd (resolve net w l now st)) = history st.
Proof.
  unfold resolve. destruct (negb _ || negb _); [reflexivity|].
  destruct (log_results _ _ _ _); [|reflexivity].
  destruct (respond net); cbn [snd]; [|reflexivity].
  now rewrite auto_archive_history.
Qed.

Lemma force_result_history net w l now st :
  history (snd (force_result net w l now st)) = history st.
Proof.
  unfold force_result. destruct (negb _ || negb _); [reflexivity|].
  destruct (w =? l); [reflexivity|].
  destruct (log_results _ _ _ _); [|reflexivity].
  destruct (respond net); cbn [snd]; [|reflexivity].
  now rewrite auto_archive_history.
Qed.

Lemma view_callback_history net ev v now st :
  history (snd (view_callback net ev v now st)) = history st.
Proof.
  assert (Hp : forall b,
            history (snd (process_results net v b now st)) = history st).
  { intros b. unfold process_results, record_phase, archive_phase.
    destruct (log_results _ _ _ _); [|reflexivity].
    cbn [snd]. now rewrite auto_archive_history. }
  destruct ev as [actor|actor|]; simpl.
  - unfold confirm. destruct (negb _); [reflexivity | apply Hp].
  - unfold dispute. destruct (negb _); [reflexivity|].
    destruct (negb _); [reflexivity|].
    destruct (get_user net _); [destruct (dm net _)|];
      destruct (get_channel net); try destruct (post net); reflexivity.
  - unfold on_timeout. destruct (negb _); [apply Hp | reflexivity].
Qed.

(** X9.  A player's stored starts are only ever added to, one at a time:
    whatever happens other than [cancel_run] for that player (finishing,
    results and archival, reactivation, deletion of runs, the callbacks of a
    result view), the number of the player's starts after any instant does
    not go down, and one event raises it by at most one.  Finishing or
    deleting a run never gives a start back. *)
Theorem starts_only_grow tz net now ev st uid a :
  ev <> Ev_cancel_run uid ->
  (starts_after a uid st <= starts_after a uid (step tz net now ev st)
   <= S (starts_after a uid st))%nat /\
  (forall vev v, starts_after a uid (snd (view_callback net vev v now st))
                 = starts_after a uid st).
Proof.
  intros Hev. split.
  2: { intros vev v. apply starts_after_ext, view_callback_history. }
  assert (Hsame : forall st', history st' = history st ->
     (starts_after a uid st <= starts_after a uid st'
      <= S (starts_after a uid st))%nat).
  { intros st' E. rewrite (starts_after_ext a uid st st' E). lia. }
  destruct ev as [u|m fresh|w l|w l|u|rid|rid|u rid]; simpl.
  - apply Hsame. unfold start_run.
    destruct (Dict.mem u (runs st)); [reflexivity|].
    destruct (negb _); reflexivity.
  - destruct (on_message_history net m now fresh st) as [E|E].
    + now apply Hsame.
    + rewrite (starts_after_ext a uid _ _ E), starts_after_log.
      destruct (Z.eq_dec uid (author m)); [|lia].
      destruct (a <? now); lia.
  - apply Hsame, force_result_history.
  - apply Hsame, resolve_history.
  - assert (Hne : u <> uid) by congruence.
    unfold cancel_run. destruct (negb _); [now apply Hsame|].
    simpl. unfold starts_after.
    destruct (Dict.mem u (player_queue st)); simpl;
      destruct (Dict.mem u (history st)); simpl;
      rewrite ?get_pop_ne by congruence; lia.
  - apply Hsame. unfold reactivate_run.
    destruct (Dict.get rid (completed st)) as [rd|]; [|reflexivity].
    destruct (user_id rd); [|reflexivity].
    destruct (Dict.mem _ _); reflexivity.
  - apply Hsame. unfold delete_run.
    destruct (Dict.mem rid (completed st)); [reflexivity|].
    destruct (find _ _) as [[k r]|]; reflexivity.
  - apply Hsame. unfold approve.
    destruct (Dict.get rid (completed st)); reflexivity.
Qed.

Lemma starts_only_grow_witness :
  Ev_delete_run "aaaaaaaa" <> Ev_cancel_run 1 /\
  (starts_after 0%Z 1%Z two_players
   <= starts_after 0%Z 1%Z
        (step us_pacific online noon (Ev_delete_run "aaaaaaaa")
           two_players))%nat.
Proof.
  assert (H : Ev_delete_run "aaaaaaaa" <> Ev_cancel_run 1) by discriminate.
  split; [exact H|].
  exact (proj1 (proj1 (starts_only_grow us_pacific online noon
                         (Ev_delete_run "aaaaaaaa") two_players 1 0 H))).
Defined.

(** X10.  [cancel_run]: without an active run nothing changes.  Otherwise
    the player's run is deleted (not archived), the player leaves the queue,
    and the player's stored starts are gone, so that the button admits the
    player again at once, whatever the time and however many runs were
    started that day; the other players' runs, queue entries and histories
    and the archive stay as they are. *)
Theorem cancel_run_clears_player tz uid now st :
  (Dict.mem uid (runs st) = false -> cancel_run uid st = (NoActiveRun, st)) /\
  (Dict.mem uid (runs st) = true ->
   exists st',
     cancel_run uid st = (Ok, st') /\
     Dict.get uid (runs st') = None /\
     Dict.mem uid (player_queue st') = false /\
     Dict.get uid (history st') = None /\
     fst (start_run tz uid now st') = Ok /\
     completed st' = completed st /\
     forall c, c <> uid ->
       Dict.get c (runs st') = Dict.get c (runs st) /\
       Dict.get c (player_queue st') = Dict.get c (player_queue st) /\
       Dict.get c (history st') = Dict.get c (history st)).
Proof.
  unfold cancel_run. split; [intros ->; reflexivity|].
  intros ->. cbn [negb]. cbv zeta.
  cbn [runs history player_queue completed set_runs set_queue set_history].
  destruct (Dict.mem uid (player_queue st)) eqn:Eq;
    cbn [runs history player_queue completed set_runs set_queue set_history];
    destruct (Dict.mem uid (history st)) eqn:Eh;
    (eexists; split; [reflexivity|]);
    unfold start_run, can_start_run;
    cbn [runs history player_queue completed set_runs set_queue set_history];
    rewrite ?mem_pop_eq, ?get_pop_eq;
    try (apply mem_false in Eh; rewrite Eh);
    (repeat (split;
       [first [reflexivity | assumption | apply get_pop_eq
              | apply mem_pop_eq]|]));
    intros c Hc; repeat split; now rewrite ?get_pop_ne by congruence.
Qed.

Lemma cancel_run_clears_player_witness :
  Dict.mem 1 (runs two_players) = true /\
  exists st',
    cancel_run 1 two_players = (Ok, st') /\
    Dict.get 1 (history st') = None /\
    fst (start_run us_pacific 1 (noon + 60) st') = Ok.
Proof.
  split; [reflexivity|].
  destruct (proj2 (cancel_run_clears_player us_pacific 1 (noon + 60)
                     two_players) eq_refl)
    as (st' & H1 & _ & _ & H4 & H5 & _).
  exists st'. auto.
Defined.

(** ** Direct messages *)

Lemma expiry_sweep_none_deck uid now st start :
  expiry_sweep uid now st = None ->
  Dict.get uid (pending_deck_links st) = Some start ->
  older_than 600 now start = false.
Proof.
  unfold expiry_sweep. intros He Hg. rewrite Hg in He.
  destruct (older_than 600 now start); [discriminate | reflexivity].
Qed.

Lemma string_neqb_true a b : a <> b -> string_neqb a b = true.
Proof. unfold string_neqb. destruct (string_dec a b); congruence. Qed.

Lemma string_neqb_false a : string_neqb a a = false.
Proof. unfold string_neqb. destruct (string_dec a a); congruence. Qed.

(** X11.  A deck message from a player whose registration is pending and
    not expired (nor is a reactivation request of the player), and whose
    deck parses to names other than the private placeholders, registers a
    run: the player's active run becomes a new one with the names of the
    deck, the fresh id, no opponents and no results (replacing any run the
    player had), one start with the time of the message is appended to the
    player's history, and the pending registration is over.  The other
    players, the archive and the queue are untouched. *)
Theorem deck_message_registers_run net m now fresh st start ln bn :
  expiry_sweep (author m) now st = None ->
  Dict.get (author m) (pending_manual_reports st) = None ->
  Dict.get (author m) (pending_deck_links st) = Some start ->
  as_deck m = (ln, bn) ->
  ln <> "Private Leader"%string -> bn <> "Private Base"%string ->
  exists st',
    on_message net m now fresh st = (Ok, st', NoView) /\
    Dict.get (author m) (runs st')
      = Some (mk_run (author_name m) fresh ln bn [] [] None None) /\
    Dict.get (author m) (pending_deck_links st') = None /\
    Dict.get (author m) (history st')
      = Some (match Dict.get (author m) (history st) with
              | Some l => l | None => [] end ++ [mk_stamp now (Some 0)]) /\
    (forall c, c <> author m ->
       Dict.get c (runs st') = Dict.get c (runs st) /\
       Dict.get c (history st') = Dict.get c (history st)) /\
    completed st' = completed st /\ player_queue st' = player_queue st.
Proof.
  intros He Hm Hd Ha Hl Hb.
  unfold on_message. rewrite He, Hm, Hd. unfold deck_branch.
  rewrite (expiry_sweep_none_deck _ _ _ _ He Hd), Ha.
  rewrite (string_neqb_true _ _ Hl), (string_neqb_true _ _ Hb).
  cbn [andb]. eexists. split; [reflexivity|].
  unfold log_new_run_timestamp.
  cbn [runs history completed player_queue pending_deck_links
       set_runs set_history set_pending_deck].
  split; [apply get_set_eq|]. split; [apply get_pop_eq|].
  split; [apply get_set_eq|].
  split; [|auto].
  intros c Hc. split; now apply get_set_ne.
Qed.

Lemma deck_message_registers_run_witness :
  expiry_sweep 1 (noon + 1) awaiting_deck = None /\
  exists st',
    on_message online (deck_message 1 "P") (noon + 1) "aaaaaaaa" awaiting_deck
      = (Ok, st', NoView) /\
    Dict.get 1 (runs st')
      = Some (plain_run "P" "aaaaaaaa" [] []).
Proof.
  split; [reflexivity|].
  destruct (deck_message_registers_run online (deck_message 1 "P") (noon + 1)
              "aaaaaaaa" awaiting_deck noon "Han Solo" "Echo Base"
              eq_refl eq_refl eq_refl eq_refl
              ltac:(discriminate) ltac:(discriminate))
    as (st' & H1 & H2 & _).
  exists st'. split; [exact H1 | exact H2].
Defined.

(** X12.  While a registration is pending and not expired (and no local
    report or expired reactivation request is pending), a message whose
    text does not parse to a deck is answered with the reminder and changes
    nothing: the commands FINISH, STOP, ENTER_QUEUE and the others are not
    carried out, and the pending registration stays. *)
Theorem pending_deck_swallows_text net m now fresh st start :
  expiry_sweep (author m) now st = None ->
  Dict.get (author m) (pending_manual_reports st) = None ->
  Dict.get (author m) (pending_deck_links st) = Some start ->
  fst (as_deck m) = "Private Leader"%string \/
  snd (as_deck m) = "Private Base"%string ->
  on_message net m now fresh st = (InvalidDeck, st, NoView).
Proof.
  intros He Hm Hd Hp.
  unfold on_message. rewrite He, Hm, Hd. unfold deck_branch.
  rewrite (expiry_sweep_none_deck _ _ _ _ He Hd).
  destruct (as_deck m) as [ln bn]. simpl in Hp.
  destruct Hp as [-> | ->]; rewrite string_neqb_false;
    rewrite ?andb_false_r; reflexivity.
Qed.

Lemma pending_deck_swallows_text_witness :
  expiry_sweep 1 (noon + 1) awaiting_deck = None /\
  on_message online (command_message 1 "P" "ENTER_QUEUE" ENTER_QUEUE) (noon + 1)
    "unused" awaiting_deck = (InvalidDeck, awaiting_deck, NoView).
Proof.
  split; [reflexivity|].
  exact (pending_deck_swallows_text online
           (command_message 1 "P" "ENTER_QUEUE" ENTER_QUEUE) (noon + 1)
           "unused" awaiting_deck noon eq_refl eq_refl eq_refl
           (or_introl eq_refl)).
Defined.

(** X13.  The answer to a pending local report (with no expired
    registration or reactivation request pending).  A result view is sent
    only when the text is the id of another player who has an active run and
    is not among the reporter's opponents; the report is then over, and the
    view, which names the reporter as the winner, that player as the loser
    and the type ["local"], goes to that player when the reporter was
    answered, [bot.get_user] finds the player and the direct message is
    taken.  Every refusal (no number, own id, no active run, already
    played) leaves the store as it is, the pending report included, so the
    player may answer again. *)
Theorem manual_report_outcomes net m now fresh st start :
  expiry_sweep (author m) now st = None ->
  Dict.get (author m) (pending_manual_reports st) = Some start ->
  older_than 300 now start = false ->
  (exists opp_id r,
     as_int m = Some opp_id /\ opp_id <> author m /\
     Dict.mem opp_id (runs st) = true /\
     Dict.get (author m) (runs st) = Some r /\
     ~ In opp_id (opponents_played r) /\
     let st' := set_pending_manual
                  (Dict.pop (author m) (pending_manual_reports st)) st in
     on_message net m now fresh st
     = (if negb (respond net) then (Undelivered, st', NoView)
        else if get_user net opp_id
        then
          if dm net opp_id
          then (Ok, st', SentResultView (ResultView (author m) opp_id "local"))
          else (Undelivered, st', NoView)
        else (Ok, st', NoView))) \/
  (exists e, e <> Ok /\ on_message net m now fresh st = (e, st, NoView)).
Proof.
  intros He Hm Ho. unfold on_message. rewrite He, Hm.
  unfold manual_report_branch. rewrite Ho.
  destruct (as_int m) as [opp_id|];
    [|right; eexists; split; [|reflexivity]; discriminate].
  destruct (Z.eqb_spec opp_id (author m)) as [E|N];
    [right; eexists; split; [|reflexivity]; discriminate|].
  destruct (Dict.mem opp_id (runs st)) eqn:Hr; simpl;
    [|right; eexists; split; [|reflexivity]; discriminate].
  destruct (Dict.get (author m) (runs st)) as [r|] eqn:Hg;
    [|right; eexists; split; [|reflexivity]; discriminate].
  destruct (played opp_id (opponents_played r)) eqn:Hp;
    [right; eexists; split; [|reflexivity]; discriminate|].
  left. exists opp_id, r. repeat split; auto.
  intros Hin. apply played_In in Hin. congruence.
Qed.

Lemma manual_report_outcomes_witness :
  expiry_sweep 1 (noon + 30) awaiting_opponent = None /\
  Dict.get 1 (pending_manual_reports awaiting_opponent) = Some (noon + 20) /\
  exists st',
    on_message online (id_message 1 "P" "2" 2) (noon + 30) "unused"
      awaiting_opponent
    = (Ok, st', SentResultView (ResultView 1 2 "local")).
Proof.
  split; [reflexivity|]. split; [reflexivity|].
  destruct (manual_report_outcomes online (id_message 1 "P" "2" 2) (noon + 30)
              "unused" awaiting_opponent (noon + 20)
              eq_refl eq_refl eq_refl)
    as [(o & r & Hi & _ & _ & _ & _ & H)|(e & Hne & H)].
  - injection Hi as <-. eexists. exact H.
  - exfalso. apply Hne.
    assert (E : fst (fst (on_message online (id_message 1 "P" "2" 2)
                            (noon + 30) "unused" awaiting_opponent)) = Ok)
      by (vm_compute; reflexivity).
    rewrite H in E. exact E.
Defined.

(** X14.  ENTER_QUEUE from a player with no pending registration or local
    report and no expired reactivation request: without an active run the
    player is sent to the button; a player already queued is told so and
    keeps the original join time; a player with a run who joins an empty
    queue waits there with the time of the message.  Nothing else changes
    in the three cases. *)
Theorem enter_queue_outcomes net m now fresh st :
  expiry_sweep (author m) now st = None ->
  Dict.get (author m) (pending_manual_reports st) = None ->
  Dict.get (author m) (pending_deck_links st) = None ->
  as_command m = Some ENTER_QUEUE ->
  (Dict.mem (author m) (runs st) = false ->
   on_message net m now fresh st = (NoActiveRun, st, NoView)) /\
  (Dict.mem (author m) (runs st) = true ->
   Dict.mem (author m) (player_queue st) = true ->
   on_message net m now fresh st = (AlreadyQueued, st, NoView)) /\
  (Dict.mem (author m) (runs st) = true ->
   player_queue st = [] ->
   on_message net m now fresh st
   = (Ok, set_queue [(author m, now)] st, NoView)).
Proof.
  intros He Hm Hd Hc. unfold on_message. rewrite He, Hm, Hd.
  unfold command_branch. rewrite Hc.
  split; [intros ->; reflexivity|].
  split; [intros -> ->; reflexivity|].
  intros -> Hq. unfold join_queue_logic, check_for_match.
  cbn [player_queue runs set_queue]. rewrite Hq. reflexivity.
Qed.

Lemma enter_queue_outcomes_witness :
  expiry_sweep 1 (noon + 30) two_players = None /\
  Dict.mem 1 (runs two_players) = true /\
  on_message online (command_message 1 "P" "ENTER_QUEUE" ENTER_QUEUE) (noon + 30)
    "unused" two_players
  = (Ok, set_queue [(1, noon + 30)] two_players, NoView).
Proof.
  split; [reflexivity|]. split; [reflexivity|].
  exact (proj2 (proj2 (enter_queue_outcomes online
           (command_message 1 "P" "ENTER_QUEUE" ENTER_QUEUE) (noon + 30)
           "unused" two_players eq_refl eq_refl eq_refl eq_refl))
           eq_refl eq_refl).
Defined.

(** ** Scores *)

Lemma wins_plus_losses ms : (wins ms + losses ms = length ms)%nat.
Proof.
  unfold wins, losses. induction ms as [|m ms IH]; simpl; auto.
  unfold is_win, is_loss in *. destruct (res m); simpl; lia.
Qed.

Lemma losses_zero ms :
  losses ms = 0%nat <-> Forall (fun m => res m = W) ms.
Proof.
  unfold losses. induction ms as [|m ms IH]; simpl.
  - split; [constructor | reflexivity].
  - unfold is_loss at 1. destruct (res m) eqn:E; simpl.
    + rewrite IH. split; [now constructor|].
      intros H. now inversion H.
    + split; [discriminate|]. intros H. inversion H. congruence.
Qed.

(** X15.  The trophy announcement of [archive_run] fires exactly for a run
    of three results that are all wins: fewer results, a loss, or a fourth
    result on a reactivated run (even a fourth win) give no trophy.  The two
    counts of [archive_run] add up to the number of results, so the score
    that FINISH shows, wins and the rest, is wins and losses. *)
Theorem trophy_iff_three_wins r :
  (earns_trophy r = true <->
   length (match_results r) = 3%nat /\
   Forall (fun m => res m = W) (match_results r)) /\
  finish_score r = (wins (match_results r), losses (match_results r)).
Proof.
  unfold earns_trophy, finish_score.
  pose proof (wins_plus_losses (match_results r)) as Hs.
  split.
  - rewrite andb_true_iff, !Nat.eqb_eq, losses_zero. split.
    + intros [Hw Hl]. split; [|exact Hl].
      apply losses_zero in Hl. lia.
    + intros [Hn Hl]. split; [|exact Hl].
      apply losses_zero in Hl. lia.
  - f_equal. lia.
Qed.

(** ** Disputes and claims *)

(** X16.  A dispute by the reported loser records nothing and marks and
    stops the view, whatever Discord does afterwards: no click and no
    timeout acts on that view again.  The decision goes to the
    administrators exactly when the loser was answered, [bot.get_user] finds
    the reported winner, the winner takes the direct message and the admin
    channel is found and takes the view; otherwise nobody is asked.  When both players still have active runs,
    the administrators' choice of the second player reverses the claim: the
    original loser is credited with a win and the original winner with a
    loss, both of type ["admin_dispute"]; when the administrator was
    answered the run of the new winner is archived if full, and so is the
    other one when the loop gets to it. *)
Theorem dispute_lets_admin_reverse net net' v now st :
  let v' := stop (mark_confirmed v) in
  let d := mk_dispute (winner_id v) (loser_id v) in
  (exists r o,
     dispute net v (loser_id v) st = (v', r, st, o) /\
     (o = None \/ o = Some d) /\
     (o = Some d <->
      respond net = true /\
      get_user net (winner_id v) = true /\ dm net (winner_id v) = true /\
      get_channel net = true /\ post net = true)) /\
  (forall n ev t s, view_dispatch n ev v' t s = (v', Ignored, s)) /\
  (forall n t s, on_timeout n v' t s = (v', Ignored, s)) /\
  (forall rw rl,
     winner_id v <> loser_id v ->
     Dict.get (winner_id v) (runs st) = Some rw ->
     Dict.get (loser_id v) (runs st) = Some rl ->
     run_id rw <> run_id rl ->
     let rl' := with_result rl (mk_match (winner_id v) W "admin_dispute") in
     let rw' := with_result rw (mk_match (loser_id v) L "admin_dispute") in
     exists r st',
       p2_wins net' d now st = (r, st') /\
       (if respond net' then settled st' (loser_id v) rl' now
        else Dict.get (loser_id v) (runs st') = Some rl') /\
       (if respond net' && (negb (full rl') || notify net' (loser_id v))
        then settled st' (winner_id v) rw' now
        else Dict.get (winner_id v) (runs st') = Some rw') /\
       r = (if respond net'
               && (negb (full rl') || notify net' (loser_id v))
               && (negb (full rw') || notify net' (winner_id v))
            then Ok else Undelivered)).
Proof.
  intros v' d. split.
  { unfold dispute. rewrite Z.eqb_refl. cbn [negb]. fold v' d.
    destruct (respond net), (get_user net (winner_id v)),
      (dm net (winner_id v)), (get_channel net), (post net); cbn [negb];
      do 2 eexists; (split; [reflexivity|]);
      (split; [auto|]); split; try discriminate; auto 6;
      intros (? & ? & ? & ? & ?); discriminate. }
  split; [intros n ev t s; reflexivity|].
  split; [intros n t s; reflexivity|].
  intros rw rl Hne Hw Hl Hrid.
  assert (Hne' : loser_id v <> winner_id v) by congruence.
  assert (Hrid' : run_id rl <> run_id rw) by congruence.
  destruct (resolve_records net' (loser_id v) (winner_id v) now st
              rl rw Hl Hw Hne' Hrid') as (r & st' & H1 & H2 & H3 & H4).
  exists r, st'. unfold p2_wins, d. cbn [p1 p2]. auto.
Qed.

Lemma dispute_lets_admin_reverse_witness :
  exists v' st' r,
    dispute online claimed_win 2 two_players
      = (v', Ok, two_players, Some (mk_dispute 1 2)) /\
    p2_wins online (mk_dispute 1 2) (noon + 90) two_players = (Ok, st') /\
    Dict.get 2 (runs st') = Some r /\
    match_results r = [mk_match 1 W "admin_dispute"].
Proof.
  destruct (proj2 (proj2 (proj2
              (dispute_lets_admin_reverse online online claimed_win
                 (noon + 90) two_players)))
              (plain_run "P" "aaaaaaaa" [] []) (plain_run "Q" "bbbbbbbb" [] [])
              ltac:(discriminate) eq_refl eq_refl ltac:(discriminate))
    as (r & st' & H1 & H2 & _ & H4).
  exists (stop (mark_confirmed claimed_win)), st',
    (with_result (plain_run "Q" "bbbbbbbb" [] [])
       (mk_match 1 W "admin_dispute")).
  split; [reflexivity|].
  split; [rewrite H4 in H1; exact H1|].
  split; [exact H2 | reflexivity].
Defined.

(** X17.  In the view that follows "I Won" the claimant is the winner and
    the other player of the match is the loser; the claimant can neither
    confirm nor dispute the own claim, and nobody but the loser can: such a
    click is refused and changes neither the view nor the store. *)
Theorem claimant_cannot_confirm net mp1 mp2 actor now st :
  mp1 <> mp2 -> actor = mp1 \/ actor = mp2 ->
  let v := win_claim mp1 mp2 actor in
  winner_id v = actor /\
  (loser_id v = mp1 \/ loser_id v = mp2) /\ loser_id v <> actor /\
  match_type v = "queue"%string /\
  forall x, x <> loser_id v ->
    confirm net v x now st = (v, NotLoser, st) /\
    dispute net v x st = (v, NotLoser, st, None).
Proof.
  intros Hne Hact v. subst v. unfold win_claim. simpl.
  split; [reflexivity|].
  assert (Hl : (if actor =? mp1 then mp2 else mp1) <> actor /\
               ((if actor =? mp1 then mp2 else mp1) = mp1 \/
                (if actor =? mp1 then mp2 else mp1) = mp2)).
  { destruct (Z.eqb_spec actor mp1) as [->|N].
    - split; [congruence | now right].
    - destruct Hact as [->| ->]; [congruence|]. split; [congruence | now left]. }
  destruct Hl as [Hl1 Hl2].
  split; [exact Hl2|]. split; [exact Hl1|]. split; [reflexivity|].
  intros x Hx. unfold confirm, dispute. simpl.
  apply Z.eqb_neq in Hx. rewrite Hx. split; reflexivity.
Qed.

Lemma claimant_cannot_confirm_witness :
  1 <> 2 /\
  confirm online (win_claim 1 2 1) 1 noon two_players
  = (win_claim 1 2 1, NotLoser, two_players).
Proof.
  assert (H : 1 <> 2) by discriminate.
  split; [exact H|].
  destruct (claimant_cannot_confirm online 1 2 1 noon two_players H
              (or_introl eq_refl)) as (_ & _ & _ & _ & Hx).
  exact (proj1 (Hx 1 ltac:(discriminate))).
Defined.

(** ** Reactivation requests *)

Lemma expiry_sweep_none_react uid now st start :
  expiry_sweep uid now st = None ->
  Dict.get uid (pending_deck_links st) = None ->
  Dict.get uid (pending_reactivations st) = Some start ->
  older_than 600 now start = false.
Proof.
  unfold expiry_sweep. intros He Hd Hg. rewrite Hd, Hg in He.
  destruct (older_than 600 now start); [discriminate | reflexivity].
Qed.

(** X18.  A reactivation request (with no expired flow pending) for an id
    that is in the archive ends the pending request and is forwarded to the
    administrators' channel, if that channel is found and takes the
    message, without a look at whose run it is; when an administrator approves it, the archived record
    becomes the requester's active run, whatever owner it names and whatever
    run the requester had, and leaves the archive. *)
Theorem requested_run_goes_to_requester net m now fresh st start rd :
  expiry_sweep (author m) now st = None ->
  Dict.get (author m) (pending_manual_reports st) = None ->
  Dict.get (author m) (pending_deck_links st) = None ->
  as_command m = None ->
  Dict.get (author m) (pending_reactivations st) = Some start ->
  Dict.get (content m) (completed st) = Some rd ->
  exists st1 st2,
    on_message net m now fresh st
      = (if get_channel net
         then
           if post net then (Ok, st1, SentApproval (author m) (content m))
           else (Undelivered, st1, NoView)
         else (NoChannel, st1, NoView)) /\
    Dict.get (author m) (pending_reactivations st1) = None /\
    runs st1 = runs st /\ completed st1 = completed st /\
    approve (author m) (content m) st1 = (Ok, st2) /\
    Dict.get (author m) (runs st2) = Some rd /\
    Dict.get (content m) (completed st2) = None.
Proof.
  intros He Hm Hd Hc Hp Hr.
  unfold on_message. rewrite He, Hm, Hd.
  unfold command_branch. rewrite Hc.
  unfold reactivation_branch. rewrite Hp.
  rewrite (expiry_sweep_none_react _ _ _ _ He Hd Hp).
  rewrite (mem_get _ _ _ Hr). cbn [negb].
  do 2 eexists.
  split; [destruct (get_channel net); [destruct (post net)|]; reflexivity|].
  simpl.
  split; [apply get_pop_eq|]. split; [reflexivity|]. split; [reflexivity|].
  unfold approve. simpl. rewrite Hr.
  split; [reflexivity|]. simpl.
  split; [apply get_set_eq | apply get_pop_eq].
Qed.

Lemma requested_run_goes_to_requester_witness :
  expiry_sweep 2 (noon + 40) asking_reactivation = None /\
  exists st1 st2 rd,
    on_message online (text_message 2 "Q" "aaaaaaaa") (noon + 40) "unused"
      asking_reactivation = (Ok, st1, SentApproval 2 "aaaaaaaa") /\
    approve 2 "aaaaaaaa" st1 = (Ok, st2) /\
    Dict.get 2 (runs st2) = Some rd /\ user_id rd = Some 1.
Proof.
  split; [reflexivity|].
  destruct (requested_run_goes_to_requester online
              (text_message 2 "Q" "aaaaaaaa") (noon + 40) "unused"
              asking_reactivation (noon + 30)
              (close_run (plain_run "P" "aaaaaaaa" [] []) 1 (noon + 20))
              eq_refl eq_refl eq_refl eq_refl eq_refl eq_refl)
    as (st1 & st2 & H1 & _ & _ & _ & H5 & H6 & _).
  exists st1, st2,
    (close_run (plain_run "P" "aaaaaaaa" [] []) 1 (noon + 20)).
  split; [exact H1|]. split; [exact H5|]. split; [exact H6 | reflexivity].
Defined.

(** X19.  Reactivating an archived run and archiving it again puts the
    record back under the same id with a new [ended_at] and nothing else
    changed; the other archived records and the other players' runs are as
    before. *)
Theorem reactivate_then_archive rid st rd owner now :
  Dict.get rid (completed st) = Some rd ->
  user_id rd = Some owner -> run_id rd = rid ->
  Dict.mem owner (runs st) = false ->
  exists st1 st2,
    reactivate_run rid st = (Ok, st1) /\
    archive_run owner now st1 = (Some (close_run rd owner now), st2) /\
    Dict.get rid (completed st2) = Some (close_run rd owner now) /\
    Dict.get owner (runs st2) = None /\
    (forall k, k <> rid ->
       Dict.get k (completed st2) = Dict.get k (completed st)) /\
    (forall c, c <> owner -> Dict.get c (runs st2) = Dict.get c (runs st)) /\
    name (close_run rd owner now) = name rd /\
    match_results (close_run rd owner now) = match_results rd /\
    opponents_played (close_run rd owner now) = opponents_played rd /\
    user_id (close_run rd owner now) = user_id rd.
Proof.
  intros Hg Hu Hid Hm.
  unfold reactivate_run. rewrite Hg, Hu, Hm.
  set (st1 := set_completed (Dict.pop rid (completed st))
                (set_runs (Dict.set owner rd (runs st)) st)).
  assert (Hg1 : Dict.get owner (runs st1) = Some rd) by apply get_set_eq.
  destruct (archive_run_present owner now st1 rd Hg1) as (Er & Ec & _).
  exists st1, (snd (archive_run owner now st1)).
  split; [reflexivity|].
  split; [unfold archive_run; rewrite Hg1; reflexivity|].
  rewrite Er, Ec, Hid. subst st1.
  cbn [runs completed set_runs set_completed].
  split; [apply get_set_eq|].
  split; [apply get_pop_eq|].
  split; [intros k Hk; rewrite get_set_ne, get_pop_ne by congruence;
          reflexivity|].
  split; [intros c Hc; rewrite get_pop_ne, get_set_ne by congruence;
          reflexivity|].
  repeat split.
Qed.

Lemma reactivate_then_archive_witness :
  Dict.mem 1 (runs finished_early) = false /\
  exists st1 st2 r,
    reactivate_run "aaaaaaaa" finished_early = (Ok, st1) /\
    archive_run 1 (noon + 99) st1 = (Some r, st2) /\
    Dict.get "aaaaaaaa"%string (completed st2) = Some r /\
    ended_at r = Some (noon + 99).
Proof.
  split; [reflexivity|].
  destruct (reactivate_then_archive "aaaaaaaa" finished_early
              (close_run (plain_run "P" "aaaaaaaa" [] []) 1 (noon + 10))
              1 (noon + 99) eq_refl eq_refl eq_refl eq_refl)
    as (st1 & st2 & H1 & H2 & H3 & _).
  exists st1, st2. eexists. split; [exact H1|]. split; [exact H2|].
  split; [exact H3 | reflexivity].
Defined.

(** ** Refusals and failures *)

Lemma log_results_missing w l ty tbl :
  Dict.get w tbl = None \/ Dict.get l tbl = None ->
  log_results w l ty tbl = None.
Proof.
  unfold log_results, add_result.
  destruct (Dict.get w tbl) as [rw|] eqn:Hw; [|reflexivity].
  intros [H|H]; [discriminate|].
  destruct (Z.eq_dec l w) as [->|N]; [congruence|].
  rewrite get_set_ne by assumption. now rewrite H.
Qed.

(** X20.  When the reported winner or the reported loser has no active run
    any more, the loser's confirmation records nothing: [process_results]
    raises before it saves and the files stay as they were.  The view is
    nevertheless left marked as confirmed, and it is still live.  When its
    timer then runs out, [on_timeout] does nothing, whatever the store has
    become, so the timeout never records the result; discord.py finishes
    the view.  The timeout of a view nobody answered raises in the same way,
    on a view that discord.py finished first. *)
Theorem failed_confirm_blocks_timeout net v now st :
  Dict.get (winner_id v) (runs st) = None \/
  Dict.get (loser_id v) (runs st) = None ->
  confirm net v (loser_id v) now st = (mark_confirmed v, Raised, st) /\
  (stopped v = false ->
   view_dispatch net (ClickConfirm (loser_id v)) v now st
   = (mark_confirmed v, Raised, st)) /\
  stopped (mark_confirmed v) = stopped v /\
  (forall n t st', on_timeout n (mark_confirmed v) t st'
                   = (mark_confirmed v, Ignored, st')) /\
  (stopped v = false ->
   forall n t st', view_dispatch n TimerFired (mark_confirmed v) t st'
                   = (stop (mark_confirmed v), Ignored, st')) /\
  (stopped v = false -> confirmed v = false ->
   view_dispatch net TimerFired v now st
   = (mark_confirmed (stop v), Raised, st) /\
   stopped (mark_confirmed (stop v)) = true).
Proof.
  intros Hmiss.
  pose proof (log_results_missing _ _ (match_type v) _ Hmiss) as Hl.
  assert (Hc : confirm net v (loser_id v) now st
               = (mark_confirmed v, Raised, st)).
  { unfold confirm, process_results, record_phase.
    rewrite Z.eqb_refl, Hl. reflexivity. }
  split; [exact Hc|].
  split; [intros Hs; unfold view_dispatch; rewrite Hs; exact Hc|].
  split; [reflexivity|].
  split; [reflexivity|].
  split.
  - intros Hs n t st'. unfold view_dispatch. cbn [stopped mark_confirmed].
    rewrite Hs. reflexivity.
  - intros Hs Hcf. split; [|reflexivity].
    unfold view_dispatch, on_timeout, process_results, record_phase.
    rewrite Hs. cbn [confirmed stop winner_id loser_id match_type].
    rewrite Hcf, Hl. reflexivity.
Qed.

Lemma failed_confirm_blocks_timeout_witness :
  Dict.get 9 (runs two_players) = None /\
  confirm online (ResultView 9 2 "local") 2 noon two_players
  = (mark_confirmed (ResultView 9 2 "local"), Raised, two_players) /\
  view_dispatch online TimerFired (mark_confirmed (ResultView 9 2 "local"))
    (noon + 60) two_players
  = (stop (mark_confirmed (ResultView 9 2 "local")), Ignored, two_players).
Proof.
  split; [reflexivity|].
  destruct (failed_confirm_blocks_timeout online (ResultView 9 2 "local")
              noon two_players (or_introl eq_refl))
    as (H1 & _ & _ & _ & H5 & _).
  split; [exact H1|].
  exact (H5 eq_refl online (noon + 60) two_players).
Defined.



(** ** Looking up and deleting runs *)

Lemma find_has_run_id rid (d : dict user_id_t run) :
  match find (has_run_id rid) d with
  | Some (uid, r) => In (uid, r) d /\ run_id r = rid
  | None => forall uid r, In (uid, r) d -> run_id r <> rid
  end.
Proof.
  destruct (find (has_run_id rid) d) as [[uid r]|] eqn:Hf.
  - apply find_some in Hf. destruct Hf as [Hin Hb]. split; [exact Hin|].
    unfold has_run_id in Hb. simpl in Hb.
    destruct (string_dec (run_id r) rid); [assumption | discriminate].
  - intros uid r Hin E.
    pose proof (find_none _ _ Hf _ Hin) as Hb.
    unfold has_run_id in Hb. simpl in Hb.
    destruct (string_dec (run_id r) rid); [discriminate | contradiction].
Qed.

(** X22.  [delete_run] removes at most one record.  An id found in the
    archive removes that archived record only, and the active runs are not
    looked at; otherwise an active run with that id is removed (its
    player's queue entry and history stay); when neither the archive nor an
    active run has the id, the answer is "not found" and nothing changes. *)
Theorem delete_run_removes_one rid st :
  (Dict.mem rid (completed st) = true ->
   delete_run rid st
   = (Ok, set_completed (Dict.pop rid (completed st)) st)) /\
  (Dict.mem rid (completed st) = false ->
   (exists uid r, In (uid, r) (runs st) /\ run_id r = rid) ->
   exists uid r,
     In (uid, r) (runs st) /\ run_id r = rid /\
     delete_run rid st = (Ok, set_runs (Dict.pop uid (runs st)) st)) /\
  (Dict.mem rid (completed st) = false ->
   (forall uid r, In (uid, r) (runs st) -> run_id r <> rid) ->
   delete_run rid st = (NotFound, st)).
Proof.
  unfold delete_run. split; [intros ->; reflexivity|].
  pose proof (find_has_run_id rid (runs st)) as Hf.
  fold (has_run_id rid).
  split; intros ->.
  - intros (uid & r & Hin & E).
    destruct (find (has_run_id rid) (runs st)) as [[u r']|].
    + destruct Hf as [Hin' E']. exists u, r'. auto.
    + exfalso. exact (Hf uid r Hin E).
  - intros Hnone.
    destruct (find (has_run_id rid) (runs st)) as [[u r']|]; [|reflexivity].
    destruct Hf as [Hin' E']. exfalso. exact (Hnone u r' Hin' E').
Qed.

Lemma delete_run_removes_one_witness :
  Dict.mem "aaaaaaaa"%string (completed finished_early) = true /\
  delete_run "aaaaaaaa" finished_early
  = (Ok, set_completed [] finished_early).
Proof.
  split; [reflexivity|].
  exact (proj1 (delete_run_removes_one "aaaaaaaa" finished_early) eq_refl).
Defined.

(** X23.  [get_run_data] and [delete_run] agree on what exists: the lookup
    finds no run exactly when the deletion answers "not found".  What the
    lookup returns as ACTIVE is an active run with the id asked for, and
    what it returns as COMPLETED is the archived record under that id, which
    is reported only when no active run has the id. *)
Theorem get_run_data_agrees_with_delete_run rid st :
  (get_run_data rid st = None <-> fst (delete_run rid st) = NotFound) /\
  (forall data, get_run_data rid st = Some (data, ACTIVE) ->
     run_id data = rid /\ exists uid, In (uid, data) (runs st)) /\
  (forall data, get_run_data rid st = Some (data, COMPLETED) ->
     Dict.get rid (completed st) = Some data /\
     forall uid r, In (uid, r) (runs st) -> run_id r <> rid).
Proof.
  unfold get_run_data, delete_run. fold (has_run_id rid).
  pose proof (find_has_run_id rid (runs st)) as Hf.
  unfold Dict.mem.
  destruct (find (has_run_id rid) (runs st)) as [[u r']|];
    destruct (Dict.get rid (completed st)) as [d|]; simpl;
    (split; [split; intros H; (discriminate || reflexivity)|]);
    (split; [intros data H | intros data H]);
    try discriminate; injection H as <-.
  - destruct Hf as [Hin E]. split; [exact E | now exists u].
  - destruct Hf as [Hin E]. split; [exact E | now exists u].
  - split; [reflexivity | exact Hf].
Qed.

Lemma get_run_data_agrees_with_delete_run_witness :
  get_run_data "zzzzzzzz" two_players = None /\
  fst (delete_run "zzzzzzzz" two_players) = NotFound.
Proof.
  assert (H : get_run_data "zzzzzzzz" two_players = None) by reflexivity.
  split; [exact H|].
  exact (proj1 (proj1 (get_run_data_agrees_with_delete_run "zzzzzzzz"
                         two_players)) H).
Defined.

(** X24.  FINISH from a player with no pending registration or local
    report and no expired reactivation request archives the player's run
    whatever its number of results, none included: the run leaves the
    active runs, the player leaves the queue, and the record is in the
    archive under its id with the owner and the time of the message.
    Without an active run the player is told so and nothing changes.  The
    other players' runs and the history are as before. *)
Theorem finish_archives_any_run net m now fresh st :
  expiry_sweep (author m) now st = None ->
  Dict.get (author m) (pending_manual_reports st) = None ->
  Dict.get (author m) (pending_deck_links st) = None ->
  as_command m = Some FINISH ->
  (Dict.get (author m) (runs st) = None ->
   on_message net m now fresh st = (NoActiveRun, st, NoView)) /\
  (forall r, Dict.get (author m) (runs st) = Some r ->
   exists st',
     on_message net m now fresh st = (Ok, st', NoView) /\
     Dict.get (author m) (runs st') = None /\
     Dict.mem (author m) (player_queue st') = false /\
     Dict.get (run_id r) (completed st')
       = Some (close_run r (author m) now) /\
     history st' = history st /\
     forall c, c <> author m ->
       Dict.get c (runs st') = Dict.get c (runs st) /\
       Dict.get c (player_queue st') = Dict.get c (player_queue st)).
Proof.
  intros He Hm Hd Hc. unfold on_message. rewrite He, Hm, Hd.
  unfold command_branch. rewrite Hc. split.
  - intros Hr. now rewrite archive_run_absent.
  - intros r Hr.
    destruct (archive_run_present (author m) now st r Hr)
      as (Er & Ec & Eq & _ & Eo & Eh).
    assert (Ef : fst (archive_run (author m) now st)
                 = Some (close_run r (author m) now)).
    { unfold archive_run. now rewrite Hr. }
    destruct (archive_run (author m) now st) as [o st']. simpl in *.
    subst o. exists st'. split; [reflexivity|].
    split; [rewrite Er; apply get_pop_eq|].
    split; [exact Eq|].
    split; [rewrite Ec; apply get_set_eq|].
    split; [exact Eh|].
    intros c Hne. split; [rewrite Er; now apply get_pop_ne | now apply Eo].
Qed.

Lemma finish_archives_any_run_witness :
  expiry_sweep 1 (noon + 30) two_players = None /\
  exists st',
    on_message online (command_message 1 "P" "FINISH" FINISH) (noon + 30) "unused"
      two_players = (Ok, st', NoView) /\
    Dict.get 1 (runs st') = None.
Proof.
  split; [reflexivity|].
  destruct (proj2 (finish_archives_any_run online
              (command_message 1 "P" "FINISH" FINISH) (noon + 30) "unused"
              two_players eq_refl eq_refl eq_refl eq_refl)
              (plain_run "P" "aaaaaaaa" [] []) eq_refl)
    as (st' & H1 & H2 & _).
  exists st'. split; [exact H1 | exact H2].
Defined.

(** ** More on the daily limit *)

Lemma filter_none {A} (f : A -> bool) l :
  (forall x, In x l -> f x = false) -> filter f l = [].
Proof.
  induction l as [|x l IH]; simpl; auto.
  intros H. rewrite (H x (or_introl eq_refl)). apply IH.
  intros y Hy. apply H. now right.
Qed.

(** X25.  Whatever the zone does, a player none of whose stored starts is
    later than some instant can start a run 24 hours after that instant:
    the cutoff is never more than a day old, so by then every stored start
    lies at or before it. *)
Theorem limit_is_over_within_a_day tz now uid st :
  (forall l ts, Dict.get uid (history st) = Some l -> In ts l ->
                run_time ts <= now) ->
  can_start_run tz (now + usec_per_day) uid st = true.
Proof.
  intros Hold. apply can_start_run_counts.
  destruct (get_last_3am_pacific_shape tz (now + usec_per_day)) as [[_ Hlt] _].
  unfold starts_after.
  destruct (Dict.get uid (history st)) as [l|] eqn:Hg;
    [|unfold MAX_RUNS_PER_DAY; lia].
  assert (E : filter (fun ts => get_last_3am_pacific tz (now + usec_per_day)
                                <? run_time ts) l = []).
  { apply filter_none. intros ts Hin.
    specialize (Hold l ts eq_refl Hin).
    apply Z.ltb_ge. lia. }
  rewrite E. unfold MAX_RUNS_PER_DAY. simpl. lia.
Qed.

Lemma limit_is_over_within_a_day_witness :
  let last := 1730543400 * usec_per_second in
  (forall l ts, Dict.get 7 (history fallback_history) = Some l -> In ts l ->
                run_time ts <= last) /\
  can_start_run us_pacific (last + usec_per_day) 7 fallback_history = true.
Proof.
  intros last.
  assert (H : forall l ts,
            Dict.get 7 (history fallback_history) = Some l -> In ts l ->
            run_time ts <= last).
  { intros l ts Hg Hin. injection Hg as <-.
    destruct Hin as [<-|[<-|[]]]; vm_compute; discriminate. }
  split; [exact H|].
  exact (limit_is_over_within_a_day us_pacific last 7 fallback_history H).
Defined.

(** X26.  Whenever the zone has kept one offset over the last 24 hours,
    [can_start_run] is the rule of the reset anchor: it answers [true]
    exactly when fewer than [MAX_RUNS_PER_DAY] stored starts lie strictly
    after the most recent instant, at or before now, at which the zone's
    clock read 03:00. *)
Theorem can_start_run_without_offset_change tz now uid st a :
  (forall t, now - usec_per_day < t <= now -> tz t = tz now) ->
  is_reset_anchor tz now a ->
  (can_start_run tz now uid st = true <->
   (starts_after a uid st < MAX_RUNS_PER_DAY)%nat).
Proof.
  intros Hconst Ha.
  assert (E : a = get_last_3am_pacific tz now).
  { eapply is_reset_anchor_unique; [exact Ha|].
    apply get_last_3am_pacific_is_anchor.
    destruct (get_last_3am_pacific_shape tz now) as [[Hle Hlt] _].
    intros t Ht. apply Hconst. lia. }
  subst a. apply can_start_run_counts.
Qed.

Lemma us_pacific_summer t :
  pdt_begins_2024 <= t < pdt_ends_2024 -> us_pacific t = -25200000000.
Proof.
  intros [H1 H2].
  destruct (us_pacific_around_fallback t H1) as [[_ E]|[H3 _]];
    [exact E | lia].
Qed.

Lemma can_start_run_without_offset_change_witness :
  (forall t, noon - usec_per_day < t <= noon ->
             us_pacific t = us_pacific noon) /\
  is_reset_anchor us_pacific noon (get_last_3am_pacific us_pacific noon) /\
  (can_start_run us_pacific noon 1 two_players = true <->
   (starts_after (get_last_3am_pacific us_pacific noon) 1%Z two_players
    < MAX_RUNS_PER_DAY)%nat).
Proof.
  assert (Hn : noon = 1717243200000000) by reflexivity.
  assert (Hd : usec_per_day = 86400000000) by reflexivity.
  assert (Hb : pdt_begins_2024 = 1710064800000000) by reflexivity.
  assert (He : pdt_ends_2024 = 1730624400000000) by reflexivity.
  assert (Hc : forall t, noon - usec_per_day < t <= noon ->
                         us_pacific t = us_pacific noon).
  { intros t Ht. rewrite Hn, Hd in Ht.
    rewrite !us_pacific_summer; [reflexivity | |]; rewrite Hb, He; lia. }
  assert (Ha : is_reset_anchor us_pacific noon
                 (get_last_3am_pacific us_pacific noon)).
  { apply get_last_3am_pacific_is_anchor.
    destruct (get_last_3am_pacific_shape us_pacific noon) as [[Hle Hlt] _].
    intros t Ht. apply Hc. lia. }
  split; [exact Hc|]. split; [exact Ha|].
  exact (can_start_run_without_offset_change us_pacific noon 1 two_players
           _ Hc Ha).
Defined.

(** ** The performance report *)

Lemma total_set {K V} {HK : EqDec K} (f : V -> nat) (k : K) v
    (d : dict K V) :
  (total f (Dict.set k v d)
   + match Dict.get k d with Some x => f x | None => 0 end
   = total f d + f v)%nat.
Proof.
  unfold total. induction d as [|[k0 v0] d IH]; simpl.
  - destruct (eq_dec k k); lia.
  - destruct (eq_dec k k0) as [E|N]; simpl; lia.
Qed.

Lemma total_add_run_stats (f : user_stat -> nat) (g : run -> nat) stats r :
  f (mk_stat (name r) 0 0 0) = 0%nat ->
  (forall s, f (mk_stat (stat_name s)
                  (stat_wins s + wins (match_results r))
                  (stat_losses s + losses (match_results r))
                  (positive_runs s + run_is_positive r))
             = f s + g r)%nat ->
  (total f (add_run_stats stats r) = total f stats + g r)%nat.
Proof.
  intros H0 Hs. unfold add_run_stats.
  pose proof (total_set f (user_id r)
    (mk_stat
       (stat_name match Dict.get (user_id r) stats with
                  | Some s => s | None => mk_stat (name r) 0 0 0 end)
       (stat_wins match Dict.get (user_id r) stats with
                  | Some s => s | None => mk_stat (name r) 0 0 0 end
        + wins (match_results r))
       (stat_losses match Dict.get (user_id r) stats with
                    | Some s => s | None => mk_stat (name r) 0 0 0 end
        + losses (match_results r))
       (positive_runs match Dict.get (user_id r) stats with
                      | Some s => s | None => mk_stat (name r) 0 0 0 end
        + run_is_positive r)) stats) as Ht.
  rewrite Hs in Ht. unfold run_is_positive in *.
  destruct (Dict.get (user_id r) stats) as [s|]; [lia|].
  rewrite H0 in Ht. lia.
Qed.

Lemma total_fold_stats (f : user_stat -> nat) (g : run -> nat) :
  (forall r, f (mk_stat (name r) 0 0 0) = 0%nat) ->
  (forall r s, f (mk_stat (stat_name s)
                  (stat_wins s + wins (match_results r))
                  (stat_losses s + losses (match_results r))
                  (positive_runs s + run_is_positive r))
             = f s + g r)%nat ->
  forall (rs : dict string run) stats,
    (total f (fold_left add_run_stats (map snd rs) stats)
     = total f stats + total g rs)%nat.
Proof.
  intros H0 Hs rs. induction rs as [|[k r] rs IH]; intros stats.
  - simpl. lia.
  - cbn [map fold_left snd]. rewrite IH.
    rewrite (total_add_run_stats f g) by auto.
    change (total g ((k, r) :: rs)) with (g r + total g rs)%nat. lia.
Qed.

Lemma total_plus {K V} (f g h : V -> nat) (d : dict K V) :
  (forall v, f v + g v = h v)%nat ->
  (total f d + total g d = total h d)%nat.
Proof.
  intros H. induction d as [|[k v] d IH]; [reflexivity|].
  change (total f ((k, v) :: d)) with (f v + total f d)%nat.
  change (total g ((k, v) :: d)) with (g v + total g d)%nat.
  change (total h ((k, v) :: d)) with (h v + total h d)%nat.
  specialize (H v). lia.
Qed.

(** X27.  The rows of the performance report account for the archive
    exactly: summed over the players, the wins equal the wins recorded in
    the archived runs, the losses equal the losses, the positive runs equal
    the number of archived runs with more wins than losses, and wins plus
    losses equal the number of archived results.  No result is dropped or
    counted twice, whichever records share an owner. *)
Theorem report_totals_match_archive st :
  total stat_wins (user_stats st)
    = total (fun r => wins (match_results r)) (completed st) /\
  total stat_losses (user_stats st)
    = total (fun r => losses (match_results r)) (completed st) /\
  total positive_runs (user_stats st)
    = total run_is_positive (completed st) /\
  (total stat_wins (user_stats st) + total stat_losses (user_stats st)
   = total (fun r => length (match_results r)) (completed st))%nat.
Proof.
  unfold user_stats.
  assert (Hw := total_fold_stats stat_wins
                  (fun r => wins (match_results r))
                  (fun _ => eq_refl) (fun _ _ => eq_refl) (completed st) []).
  assert (Hl := total_fold_stats stat_losses
                  (fun r => losses (match_results r))
                  (fun _ => eq_refl) (fun _ _ => eq_refl) (completed st) []).
  assert (Hp := total_fold_stats positive_runs run_is_positive
                  (fun _ => eq_refl) (fun _ _ => eq_refl) (completed st) []).
  simpl in Hw, Hl, Hp.
  split; [exact Hw|]. split; [exact Hl|]. split; [exact Hp|].
  rewrite Hw, Hl. apply total_plus.
  intros r. apply wins_plus_losses.
Qed.
